(** * EnvManager: schema-driven parsing of environment variables

    A shallow embedding of [src/EnvManager.ts] and [src/types.ts] together
    with the properties its specification states about it.

    Conventions of the embedding.
    - A JavaScript string is the Rocq [string] of its UTF-8 bytes, so that
      [===] on strings is Rocq equality and template concatenation is
      [+:+].
    - The objects the manager reads a property of by name, the source
      and its own scope table, are plain objects: a read finds an own
      property or else a property inherited from [Object.prototype].
      The object [parseEnv] fills is a plain object too, so an
      assignment to its [__proto__] goes to the inherited setter.
    - A JavaScript number is kept as the exact value its literal denotes
      (sign, decimal mantissa, decimal exponent); the final rounding to
      binary64 is left out, it never turns a number into NaN or back. *)

From Stdlib Require Import ZArith NArith Ascii String List Bool Lia.
From stdpp Require Import base option list strings gmap fin_maps.

Local Open Scope string_scope.
Local Open Scope bool_scope.

(** ** JavaScript values *)

Inductive JsNum : Type :=
| NaN
| Infinity (negative : bool)
| Dec (negative : bool) (mantissa : N) (exponent : Z).

Definition isNaN (n : JsNum) : bool :=
  match n with NaN => true | _ => false end.

Inductive JsValue : Type :=
| JsUndefined
| JsString (s : string)
| JsNumber (n : JsNum)
| JsBoolean (b : bool).

(** ** [Number(string)]: ECMAScript StringToNumber

    The grammar is StringNumericLiteral (ECMA-262, 7.1.4.1):
    optional white space, an optional StrNumericLiteral, optional white
    space, and nothing else.  A string that does not match yields NaN; the
    empty or blank string yields +0. *)

Module StringToNumber.

Definition code (c : ascii) : N := N_of_ascii c.

(** One byte StrWhiteSpaceChar: TAB, LF, VT, FF, CR, SP. *)
Definition ws1 (c : ascii) : bool :=
  let n := code c in
  ((9 <=? n) && (n <=? 13))%N || (n =? 32)%N.

(** Two bytes: U+00A0 (no-break space). *)
Definition ws2 (c0 c1 : ascii) : bool :=
  ((code c0 =? 194) && (code c1 =? 160))%N.

(** Three bytes: U+1680, U+2000..U+200A, U+2028, U+2029, U+202F, U+205F,
    U+3000 and U+FEFF. *)
Definition ws3 (c0 c1 c2 : ascii) : bool :=
  let a := code c0 in let b := code c1 in let c := code c2 in
  ((a =? 225) && (b =? 154) && (c =? 128))%N
  || ((a =? 226) && (b =? 128)
      && (((128 <=? c) && (c <=? 138)) || (c =? 168) || (c =? 169) || (c =? 175)))%N
  || ((a =? 226) && (b =? 129) && (c =? 159))%N
  || ((a =? 227) && (b =? 128) && (c =? 128))%N
  || ((a =? 239) && (b =? 187) && (c =? 191))%N.

Fixpoint skipWhiteSpace (s : string) : string :=
  match s with
  | String c0 s1 =>
      if ws1 c0 then skipWhiteSpace s1
      else match s1 with
           | String c1 s2 =>
               if ws2 c0 c1 then skipWhiteSpace s2
               else match s2 with
                    | String c2 s3 =>
                        if ws3 c0 c1 c2 then skipWhiteSpace s3 else s
                    | EmptyString => s
                    end
           | EmptyString => s
           end
  | EmptyString => s
  end.

(** Value of a digit in the given radix, [None] when [c] is no such digit. *)
Definition digitValue (radix : N) (c : ascii) : option N :=
  let n := code c in
  let v :=
    if ((48 <=? n) && (n <=? 57))%N then Some (n - 48)%N
    else if ((97 <=? n) && (n <=? 102))%N then Some (n - 87)%N
    else if ((65 <=? n) && (n <=? 70))%N then Some (n - 55)%N
    else None in
  match v with
  | Some d => if (d <? radix)%N then Some d else None
  | None => None
  end.

(** Longest run of digits: its value, its length, and what follows. *)
Fixpoint digits (radix : N) (s : string) (acc : N) (count : nat)
  : N * nat * string :=
  match s with
  | String c s' =>
      match digitValue radix c with
      | Some d => digits radix s' (acc * radix + d)%N (S count)
      | None => (acc, count, s)
      end
  | EmptyString => (acc, count, s)
  end.

Fixpoint stripPrefix (p s : string) : option string :=
  match p, s with
  | EmptyString, _ => Some s
  | String a p', String b s' => if Ascii.eqb a b then stripPrefix p' s' else None
  | String _ _, EmptyString => None
  end.

(** ExponentPart, optional: [Some (0, s)] when there is none, [None] when
    an exponent indicator is not followed by a SignedInteger (the
    indicator is then residue and the whole string is no literal). *)
Definition ExponentPart (s : string) : option (Z * string) :=
  match s with
  | String c s1 =>
      if Ascii.eqb c "e" || Ascii.eqb c "E" then
        let '(sign, s2) :=
          match s1 with
          | String "+" r => (1%Z, r)
          | String "-" r => ((-1)%Z, r)
          | _ => (1%Z, s1)
          end in
        let '(v, n, rest) := digits 10 s2 0 0 in
        match n with
        | O => None
        | S _ => Some ((sign * Z.of_N v)%Z, rest)
        end
      else Some (0%Z, s)
  | EmptyString => Some (0%Z, s)
  end.

(** StrUnsignedDecimalLiteral with the sign already read. *)
Definition StrUnsignedDecimalLiteral (neg : bool) (s : string)
  : JsNum * string :=
  match stripPrefix "Infinity" s with
  | Some rest => (Infinity neg, rest)
  | None =>
      let '(ip, nip, r1) := digits 10 s 0 0 in
      let '(fp, nfp, r2) :=
        match r1 with
        | String "." r => digits 10 r 0 0
        | _ => (0%N, O, r1)
        end in
      match (nip + nfp)%nat with
      | O => (NaN, s)
      | S _ =>
          match ExponentPart r2 with
          | Some (e, rest) =>
              (Dec neg (ip * 10 ^ N.of_nat nfp + fp)%N (e - Z.of_nat nfp)%Z,
               rest)
          | None => (NaN, s)
          end
      end
  end.

(** NonDecimalIntegerLiteral: [0x], [0o], [0b] in either case, at least
    one digit, no sign. *)
Definition NonDecimalIntegerLiteral (s : string) : option (JsNum * string) :=
  match s with
  | String "0" (String c r) =>
      let radix :=
        if Ascii.eqb c "x" || Ascii.eqb c "X" then Some 16%N
        else if Ascii.eqb c "o" || Ascii.eqb c "O" then Some 8%N
        else if Ascii.eqb c "b" || Ascii.eqb c "B" then Some 2%N
        else None in
      match radix with
      | Some b =>
          let '(v, n, rest) := digits b r 0 0 in
          match n with
          | O => None
          | S _ => Some (Dec false v 0, rest)
          end
      | None => None
      end
  | _ => None
  end.

Definition StrNumericLiteral (s : string) : JsNum * string :=
  match NonDecimalIntegerLiteral s with
  | Some r => r
  | None =>
      match s with
      | String "+" r => StrUnsignedDecimalLiteral false r
      | String "-" r => StrUnsignedDecimalLiteral true r
      | _ => StrUnsignedDecimalLiteral false s
      end
  end.

Definition StringToNumber (str : string) : JsNum :=
  match skipWhiteSpace str with
  | EmptyString => Dec false 0 0
  | s =>
      let '(v, rest) := StrNumericLiteral s in
      match skipWhiteSpace rest with
      | EmptyString => v
      | String _ _ => NaN
      end
  end.

(** What is left of [str] after the leading white space, the longest
    numeric literal and the trailing white space. *)
Definition residue (str : string) : string :=
  match skipWhiteSpace str with
  | EmptyString => EmptyString
  | s => skipWhiteSpace (snd (StrNumericLiteral s))
  end.

End StringToNumber.

(** [Number(rawValue)] on a string argument. *)
Definition Number (rawValue : string) : JsNum :=
  StringToNumber.StringToNumber rawValue.

(** ** What a property read yields

    [this.source[rawName]] and [this.scopes[scope]] are ordinary property
    reads on plain objects: they find an own property or, failing that,
    a property of [Object.prototype].  The inherited properties are the
    built-in methods and the accessor [__proto__], whose getter returns
    the prototype of the object, which is [Object.prototype] itself. *)

Module ObjectPrototype.

Inductive value : Type :=
| BuiltinFunction (name : string)
| TheObjectPrototype.

(** The methods whose [name] is their key. *)
Definition methods : list string :=
  ["__defineGetter__"; "__defineSetter__"; "hasOwnProperty";
   "__lookupGetter__"; "__lookupSetter__"; "isPrototypeOf";
   "propertyIsEnumerable"; "toString"; "valueOf"; "toLocaleString"].

(** [Object.prototype[key]], [None] when it has no such property. *)
Definition member (key : string) : option value :=
  if bool_decide (key = "constructor") then Some (BuiltinFunction "Object")
  else if bool_decide (key = "__proto__") then Some TheObjectPrototype
  else if bool_decide (key ∈ methods) then Some (BuiltinFunction key)
  else None.

(** [String(v)]: the source text of a built-in function as V8 prints it
    (ECMA-262 fixes it up to white space), and [Object.prototype.toString]
    applied to [Object.prototype]. *)
Definition toString (v : value) : string :=
  match v with
  | BuiltinFunction name => "function " +:+ name +:+ "() { [native code] }"
  | TheObjectPrototype => "[object Object]"
  end.

End ObjectPrototype.

(** The result of a property read: [undefined], a string, or an
    inherited object. *)
Inductive RawValue : Type :=
| RawUndefined
| RawString (s : string)
| RawInherited (v : ObjectPrototype.value).

(** [String(v)] and [`${v}`]. *)
Definition ToString (v : RawValue) : string :=
  match v with
  | RawUndefined => "undefined"
  | RawString s => s
  | RawInherited o => ObjectPrototype.toString o
  end.

(** [Number(v)]: for an inherited object, [valueOf] returns the object
    itself, so the number is that of its string. *)
Definition ToNumber (v : RawValue) : JsNum :=
  match v with
  | RawUndefined => NaN
  | RawString s => Number s
  | RawInherited o => Number (ObjectPrototype.toString o)
  end.

(** [v === literal] for a string literal. *)
Definition strictEquals (v : RawValue) (literal : string) : bool :=
  match v with
  | RawString s => bool_decide (s = literal)
  | RawUndefined | RawInherited _ => false
  end.

(** The string [parseEnv] works with when it has read [v]: the string
    itself or the string of the object; [None] for [undefined]. *)
Definition asString (v : RawValue) : option string :=
  match v with
  | RawUndefined => None
  | RawString s => Some s
  | RawInherited o => Some (ObjectPrototype.toString o)
  end.

(** ** Plain objects with ordered keys

    [this.scopes] and [config.scopes] are object literals; the order of
    their keys shows in [Object.keys] and in the order of a spread.  An
    object is the list of its own properties in creation order, each key
    once.  OrdinaryOwnPropertyKeys lists the array-index keys first, in
    ascending numeric order, then the remaining string keys in creation
    order. *)

Module JsObject.

Definition t (V : Type) : Type := list (string * V).

Section Operations.
Context {V : Type}.

(** The own property [k] of [o]; [None] when there is none. *)
Fixpoint get (o : t V) (k : string) : option V :=
  match o with
  | [] => None
  | (k', v) :: o' => if decide (k = k') then Some v else get o' k
  end.

(** [o[k] = v]: an existing key keeps its position, a new one goes
    last. *)
Fixpoint set (o : t V) (k : string) (v : V) : t V :=
  match o with
  | [] => [(k, v)]
  | (k', v') :: o' =>
      if decide (k = k') then (k, v) :: o' else (k', v') :: set o' k v
  end.

(** A canonical numeric string below 2^32 - 1. *)
Definition arrayIndex (k : string) : option N :=
  match k with
  | EmptyString => None
  | String c rest =>
      let '(v, _, residue) := StringToNumber.digits 10 k 0 0 in
      match residue with
      | EmptyString =>
          if Ascii.eqb c "0" && negb (bool_decide (rest = "")) then None
          else if (v <? 4294967295)%N then Some v
          else None
      | String _ _ => None
      end
  end.

Fixpoint insertIndex (i : N) (k : string) (l : list (N * string))
  : list (N * string) :=
  match l with
  | [] => [(i, k)]
  | (j, k') :: l' =>
      if (i <=? j)%N then (i, k) :: l else (j, k') :: insertIndex i k l'
  end.

Definition indexKeys (ks : list string) : list (N * string) :=
  fold_right
    (fun k acc =>
       match arrayIndex k with
       | Some i => insertIndex i k acc
       | None => acc
       end) [] ks.

Definition isStringKey (k : string) : bool :=
  match arrayIndex k with Some _ => false | None => true end.

(** [Object.keys(o)] for an object whose properties are all
    enumerable. *)
Definition keys (o : t V) : list string :=
  let ks := map fst o in
  map snd (indexKeys ks) ++ List.filter isStringKey ks.

(** [{ ...target, ...src }] continued: copy the own properties of
    [src] onto [target] in key order. *)
Definition assign (target src : t V) : t V :=
  fold_left
    (fun o k => match get src k with Some v => set o k v | None => o end)
    (keys src) target.

(** The object literal [{ ...a, ...b }]. *)
Definition spread (a b : t V) : t V := assign (assign [] a) b.

End Operations.

End JsObject.

(** ** [src/types.ts] *)

(** [boolean | string], what a validator returns. *)
Inductive ValidatorResult : Type :=
| ResultBoolean (b : bool)
| ResultString (s : string).

(** [EnvDeclaration]: the [type] tag selects the argument type of the
    validator; [validator] and [required] are optional properties. *)
Inductive EnvDeclaration : Type :=
| DeclString (validator : option (string -> ValidatorResult))
    (required : option bool)
| DeclNumber (validator : option (JsNum -> ValidatorResult))
    (required : option bool)
| DeclBoolean (validator : option (bool -> ValidatorResult))
    (required : option bool).

Definition required (declaration : EnvDeclaration) : option bool :=
  match declaration with
  | DeclString _ r | DeclNumber _ r | DeclBoolean _ r => r
  end.

(** [EnvSchema]: the declarations in the order [for ... in] visits
    them. *)
Definition EnvSchema : Type := list (string * EnvDeclaration).

(** [RawEnvSource]: [{ [key: string]: string | undefined }]. *)
Abbreviation RawEnvSource := (gmap string (option string)).

(** [ParsedEnv<T>]. *)
Abbreviation ParsedEnv := (gmap string JsValue).

Record EnvManagerConfig : Type := {
  cfg_enableScopes : option bool;
  cfg_scopes : option (JsObject.t string)
}.

(** ** [src/helpers.ts] *)

Definition defineEnvSchema (schema : EnvSchema) : EnvSchema := schema.

Definition defineEnvConfig (config : EnvManagerConfig) : EnvManagerConfig :=
  config.

(** ** Errors

    Every [throw new Error(...)] of the source is one constructor; 
    [message] is the text the source builds for it. *)

Inductive Error : Type :=
| InvalidSourceError
| ScopeUndeterminedError (scopeNames : list string)
| MissingVariableError (rawName : string)
| InvalidNumberError (rawName : string)
| InvalidBooleanError (rawName : string)
| ValidationError (rawName : string) (detail : string).

Definition quote : string := String (ascii_of_nat 34) EmptyString.

Fixpoint join (sep : string) (l : list string) : string :=
  match l with
  | [] => ""
  | [x] => x
  | x :: l' => x +:+ sep +:+ join sep l'
  end.

Definition message (e : Error) : string :=
  match e with
  | InvalidSourceError => "[Env Manager] - Env source is undefined."
  | ScopeUndeterminedError scopeNames =>
      "[Env Manager] - Scopes enabled but current scope could not be determined from source. Ensure NODE_ENV is set ("
      +:+ join " | " scopeNames +:+ ")."
  | MissingVariableError rawName =>
      "[Env Manager] - Missing required environment variable: " +:+ rawName
  | InvalidNumberError rawName =>
      "[Env Manager] - Environment variable " +:+ rawName
      +:+ " is not a valid number."
  | InvalidBooleanError rawName =>
      "[Env Manager] - Environment variable " +:+ rawName
      +:+ " is not a valid boolean. Use "
      +:+ quote +:+ "true" +:+ quote +:+ ", "
      +:+ quote +:+ "false" +:+ quote +:+ ", "
      +:+ quote +:+ "1" +:+ quote +:+ ", or "
      +:+ quote +:+ "0" +:+ quote +:+ "."
  | ValidationError rawName detail =>
      "[Env Manager] - Environment variable " +:+ rawName
      +:+ " failed custom validation. " +:+ detail
  end.

(** ** The caller's world

    The manager keeps a reference to the caller's source object and calls
    the caller's validators.  [World] holds the object behind the
    [source] argument ([None] when the argument is [undefined] or
    [null]) and a log of what the manager did with the caller's things:
    every property read on the source and every validator call, in
    order. *)

Inductive Event : Type :=
| EvGet (name : string)
| EvCall (key : string) (argument : JsValue).

Record World : Type := mkWorld {
  source : option RawEnvSource;
  events : list Event
}.

Definition logged (w : World) (e : Event) : World :=
  {| source := source w; events := events w ++ [e] |}.

(** ** Computations that read the world and may throw *)

Inductive Outcome (A : Type) : Type :=
| Return (a : A)
| Throw (e : Error).

Arguments Return {A} a.
Arguments Throw {A} e.

Definition M (A : Type) : Type := World -> Outcome A * World.

Definition ret {A : Type} (a : A) : M A := fun w => (Return a, w).

Definition throw {A : Type} (e : Error) : M A := fun w => (Throw e, w).

Definition bind {A B : Type} (m : M A) (k : A -> M B) : M B :=
  fun w =>
    match m w with
    | (Return a, w') => k a w'
    | (Throw e, w') => (Throw e, w')
    end.

Declare Scope js_scope.
Delimit Scope js_scope with js.

Notation "x <- m ;; k" := (bind m (fun x => k))
  (at level 100, m at next level, right associativity) : js_scope.
Notation "m ;; k" := (bind m (fun _ => k))
  (at level 100, right associativity) : js_scope.

Local Open Scope js_scope.

(** [!source] *)
Definition sourceMissing : M bool :=
  fun w => (Return (bool_decide (source w = None)), w).

(** [o[name]] on a source object: the own property, which may be bound
    to [undefined], else what [Object.prototype] has under that name.
    The source is taken to be a plain object (an object literal,
    [process.env]); a source without prototype reads like the plain
    source that binds the names of [Object.prototype] it lacks to
    [undefined]. *)
Definition getProperty (o : RawEnvSource) (name : string) : RawValue :=
  match o !! name with
  | Some (Some s) => RawString s
  | Some None => RawUndefined
  | None =>
      match ObjectPrototype.member name with
      | Some v => RawInherited v
      | None => RawUndefined
      end
  end.

(** [source[name]] on the object of the world. *)
Definition readSource (w : World) (name : string) : RawValue :=
  match source w with
  | Some o => getProperty o name
  | None => RawUndefined
  end.

(** The string [source[name]] stands for in [parseEnv]; [None] when the
    read gives [undefined]. *)
Definition lookupSource (w : World) (name : string) : option string :=
  asString (readSource w name).

(** [this.source[name]] *)
Definition getSource (name : string) : M RawValue :=
  fun w => (Return (readSource w name), logged w (EvGet name)).

(** [declaration.validator(parsedValue)]; [inj] shows the argument as a
    JavaScript value for the log. *)
Definition callValidator {A : Type} (inj : A -> JsValue) (key : string)
    (validator : A -> ValidatorResult) (parsedValue : A)
  : M ValidatorResult :=
  fun w => (Return (validator parsedValue),
            logged w (EvCall key (inj parsedValue))).

(** ** [src/EnvManager.ts] *)

Record EnvManager : Type := mkEnvManager {
  _env : ParsedEnv;
  schema : EnvSchema;
  enableScopes : bool;
  currentScope : option string;
  scopes : JsObject.t string
}.

Definition defaultScopes : JsObject.t string :=
  [("development", "DEV"); ("production", "PROD"); ("test", "TEST");
   ("staging", "STAGE")].

Definition set_scopes (this : EnvManager) (s : JsObject.t string)
  : EnvManager :=
  mkEnvManager (_env this) (schema this) (enableScopes this)
    (currentScope this) s.

Definition set_enableScopes (this : EnvManager) (b : bool) : EnvManager :=
  mkEnvManager (_env this) (schema this) b (currentScope this)
    (scopes this).

Definition set_env (this : EnvManager) (e : ParsedEnv) : EnvManager :=
  mkEnvManager e (schema this) (enableScopes this) (currentScope this)
    (scopes this).

(** Truthiness of a [string | null]. *)
Definition truthy (v : option string) : bool :=
  match v with
  | Some s => negb (bool_decide (s = ""))
  | None => false
  end.

(** [this.scopes[scope]]: the own entry, else what [Object.prototype]
    has under that name. *)
Definition scopeEntry (table : JsObject.t string) (scope : string)
  : RawValue :=
  match JsObject.get table scope with
  | Some prefix => RawString prefix
  | None =>
      match ObjectPrototype.member scope with
      | Some v => RawInherited v
      | None => RawUndefined
      end
  end.

(** [parsedEnv[key] = value] on the plain object [parsedEnv]: the key
    [__proto__] is the inherited accessor, whose setter ignores a value
    that is not an object; any other key becomes an own property. *)
Definition setProperty (parsedEnv : ParsedEnv) (key : string)
    (value : JsValue) : ParsedEnv :=
  if bool_decide (key = "__proto__") then parsedEnv
  else <[key := value]> parsedEnv.

(** [a || b] on strings. *)
Definition orElse (a b : string) : string :=
  if bool_decide (a = "") then b else a.

(** [this.source.NODE_ENV || null]; [NODE_ENV] is no property of
    [Object.prototype], so the read gives a string or [undefined]. *)
Definition initCurrentScope : M (option string) :=
  v <- getSource "NODE_ENV" ;;
  ret (if truthy (asString v) then asString v else None).

Definition getPrefixedName (this : EnvManager) (name : string) : string :=
  if enableScopes this && truthy (currentScope this) then
    match currentScope this with
    | Some scope =>
        let prefix :=
          orElse (ToString (scopeEntry (scopes this) scope) +:+ "_") "" in
        prefix +:+ name
    | None => name
    end
  else name.

(** The validator block that closes each case of the [switch]. *)
Definition validate {A : Type} (inj : A -> JsValue) (key rawName : string)
    (validator : option (A -> ValidatorResult)) (parsedValue : A)
  : M unit :=
  match validator with
  | Some f =>
      result <- callValidator inj key f parsedValue ;;
      let detail :=
        match result with
        | ResultString s => s
        | ResultBoolean _ => ""
        end in
      match result with
      | ResultBoolean true => ret tt
      | _ => throw (ValidationError rawName detail)
      end
  | None => ret tt
  end.

(** One turn of the [for ... in] loop of [parseEnv]. *)
Definition parseEntry (this : EnvManager) (key : string)
    (declaration : EnvDeclaration) (parsedEnv : ParsedEnv) : M ParsedEnv :=
  let isRequired := default true (required declaration) in
  let rawName := getPrefixedName this key in
  rawValue <- getSource rawName ;;
  match rawValue with
  | RawUndefined =>
      if isRequired then throw (MissingVariableError rawName)
      else ret (setProperty parsedEnv key JsUndefined)
  | _ =>
      parsedValue <-
        match declaration with
        | DeclString validator _ =>
            let parsedValue := ToString rawValue in
            validate JsString key rawName validator parsedValue ;;
            ret (JsString parsedValue)
        | DeclNumber validator _ =>
            let parsedValue := ToNumber rawValue in
            if isNaN parsedValue then throw (InvalidNumberError rawName)
            else
              validate JsNumber key rawName validator parsedValue ;;
              ret (JsNumber parsedValue)
        | DeclBoolean validator _ =>
            if negb (strictEquals rawValue "true")
               && negb (strictEquals rawValue "false")
               && negb (strictEquals rawValue "1")
               && negb (strictEquals rawValue "0")
            then throw (InvalidBooleanError rawName)
            else
              let parsedValue :=
                strictEquals rawValue "true" || strictEquals rawValue "1" in
              validate JsBoolean key rawName validator parsedValue ;;
              ret (JsBoolean parsedValue)
        end ;;
      ret (setProperty parsedEnv key parsedValue)
  end.

(** The loop from some key on, [parsedEnv] being the object built so
    far. *)
Fixpoint parseEntries (this : EnvManager) (entries : EnvSchema)
    (parsedEnv : ParsedEnv) : M ParsedEnv :=
  match entries with
  | [] => ret parsedEnv
  | (key, declaration) :: rest =>
      parsedEnv <- parseEntry this key declaration parsedEnv ;;
      parseEntries this rest parsedEnv
  end.

(** [Object.freeze]: values of the model cannot be updated in place. *)
Definition freeze (o : ParsedEnv) : ParsedEnv := o.

Definition parseEnv (this : EnvManager) : M ParsedEnv :=
  parsedEnv <- parseEntries this (schema this) ∅ ;;
  ret (freeze parsedEnv).

(** The [if (config) { ... }] block of the constructor. *)
Definition configure (this : EnvManager) (config : option EnvManagerConfig)
  : M EnvManager :=
  match config with
  | Some config =>
      let this :=
        match cfg_scopes config with
        | Some s => set_scopes this (JsObject.spread (scopes this) s)
        | None => this
        end in
      match cfg_enableScopes config with
      | Some b =>
          let this := set_enableScopes this b in
          if enableScopes this && negb (truthy (currentScope this)) then
            throw (ScopeUndeterminedError (JsObject.keys (scopes this)))
          else ret this
      | None => ret this
      end
  | None => ret this
  end.

(** The field initialisers and the constructor up to parsing. [_env] is
    not assigned yet. *)
Definition initialise (schema : EnvSchema) (config : option EnvManagerConfig)
  : M EnvManager :=
  missing <- sourceMissing ;;
  if missing then throw InvalidSourceError
  else
    currentScope <- initCurrentScope ;;
    let this := mkEnvManager ∅ schema false currentScope defaultScopes in
    configure this config.

(** [EnvManager.create(schema, source, config)], the [source] argument
    being the object of the world. *)
Definition create (schema : EnvSchema) (config : option EnvManagerConfig)
  : M EnvManager :=
  this <- initialise schema config ;;
  parsedEnv <- parseEnv this ;;
  ret (set_env this parsedEnv).

Definition data (this : EnvManager) : M ParsedEnv := ret (_env this).

(** [createManager(S, R, config)] of the specification: [create] run
    against the source object [R] with an empty log. *)
Definition createManager (S : EnvSchema) (R : RawEnvSource)
    (config : option EnvManagerConfig) : Outcome EnvManager * World :=
  create S config (mkWorld (Some R) []).

(** ** Vocabulary of the statements *)

(** The rest of a construction once the loop has come to [entries] with
    [parsedEnv] built so far. *)
Definition finish (this : EnvManager) (entries : EnvSchema)
    (parsedEnv : ParsedEnv) : M EnvManager :=
  parsedEnv <- parseEntries this entries parsedEnv ;;
  ret (set_env this (freeze parsedEnv)).

(** Construction of a manager for [S] from world [w0] has set up [this],
    has gone through the keys [pre] without throwing, has built
    [parsedEnv] from them and stands in world [w]. *)
Definition reaches (S : EnvSchema) (config : option EnvManagerConfig)
    (w0 : World) (this : EnvManager) (pre : EnvSchema)
    (parsedEnv : ParsedEnv) (w : World) : Prop :=
  exists w1,
    initialise S config w0 = (Return this, w1)
    /\ parseEntries this pre ∅ w1 = (Return parsedEnv, w).

(** The typed value of a raw string under a declaration, kind by kind;
    [None] when the string is not valid for the kind. *)
Definition convert (declaration : EnvDeclaration) (rawValue : string)
  : option JsValue :=
  match declaration with
  | DeclString _ _ => Some (JsString rawValue)
  | DeclNumber _ _ =>
      if isNaN (Number rawValue) then None
      else Some (JsNumber (Number rawValue))
  | DeclBoolean _ _ =>
      if bool_decide (rawValue = "true") || bool_decide (rawValue = "1")
      then Some (JsBoolean true)
      else if bool_decide (rawValue = "false")
              || bool_decide (rawValue = "0")
      then Some (JsBoolean false)
      else None
  end.

(** What the validator of a declaration answers on a typed value;
    [None] when the declaration has no validator (or the value is not of
    its kind). *)
Definition answer (declaration : EnvDeclaration) (v : JsValue)
  : option ValidatorResult :=
  match declaration, v with
  | DeclString (Some f) _, JsString s => Some (f s)
  | DeclNumber (Some f) _, JsNumber n => Some (f n)
  | DeclBoolean (Some f) _, JsBoolean b => Some (f b)
  | _, _ => None
  end.

(** A raw string is valid for the kind and the validator, if any,
    returns [true] on its typed value. *)
Definition accepts (declaration : EnvDeclaration) (rawValue : string)
  : bool :=
  match convert declaration rawValue with
  | Some v =>
      match answer declaration v with
      | None | Some (ResultBoolean true) => true
      | Some _ => false
      end
  | None => false
  end.

(** The scope table a configuration resolves to. *)
Definition resolvedScopes (config : option EnvManagerConfig)
  : JsObject.t string :=
  match config ≫= cfg_scopes with
  | Some user => JsObject.spread defaultScopes user
  | None => defaultScopes
  end.

(** Scopes are switched on by the configuration. *)
Definition scopesEnabled (config : option EnvManagerConfig) : bool :=
  default false (config ≫= cfg_enableScopes).

(** [sub] occurs in [s]. *)
Definition includes (s sub : string) : Prop :=
  exists before after, s = before +:+ sub +:+ after.

(** What in world [w] stands behind an error thrown while parsing. *)
Definition cause (w : World) (e : Error) : Prop :=
  match e with
  | MissingVariableError rawName => lookupSource w rawName = None
  | InvalidNumberError rawName =>
      exists rawValue,
        lookupSource w rawName = Some rawValue
        /\ isNaN (Number rawValue) = true
  | InvalidBooleanError rawName =>
      exists rawValue,
        lookupSource w rawName = Some rawValue
        /\ ~ (rawValue = "true" \/ rawValue = "false"
              \/ rawValue = "1" \/ rawValue = "0")
  | ValidationError _ _ => True
  | InvalidSourceError | ScopeUndeterminedError _ => False
  end.

(** ** Sample inputs *)

Module Sample.

Definition schema : EnvSchema :=
  [("HOST", DeclString None None);
   ("DEBUG", DeclBoolean None (Some false));
   ("PORT", DeclNumber None None)].

Definition hostOnly : RawEnvSource := {["HOST" := Some "localhost"]}.

Definition plain : EnvManager :=
  mkEnvManager ∅ schema false None defaultScopes.

Definition start (R : RawEnvSource) : World := mkWorld (Some R) [].

(** The schema and the source of [test/EnvManager.test.ts]. *)
Definition baseSchema : EnvSchema :=
  [("STRING_VAR", DeclString None (Some true));
   ("NUMBER_VAR", DeclNumber None (Some true));
   ("BOOL_VAR", DeclBoolean None (Some true));
   ("OPTIONAL_VAR", DeclString None (Some false))].

Definition baseSource : RawEnvSource :=
  list_to_map
    [("STRING_VAR", Some "hello"); ("NUMBER_VAR", Some "42");
     ("BOOL_VAR", Some "true"); ("OPTIONAL_VAR", None);
     ("NODE_ENV", Some "development");
     ("DEV_STRING_VAR", Some "dev-hello");
     ("PROD_STRING_VAR", Some "prod-hello");
     ("TEST_STRING_VAR", Some "test-hello");
     ("STAGE_STRING_VAR", Some "stage-hello")].

Definition scoped : EnvManagerConfig :=
  {| cfg_enableScopes := Some true; cfg_scopes := None |}.

(** What a construction yields: the parsed mapping or the message of
    the error. *)
Definition result (r : Outcome EnvManager * World)
  : list (string * JsValue) + string :=
  match fst r with
  | Return m => inl (map_to_list (_env m))
  | Throw e => inr (message e)
  end.

(** [(port) => port is an integer in 1..65535 ? true : "port out of
    range"]. *)
Definition portValidator (port : JsNum) : ValidatorResult :=
  match port with
  | Dec false m 0 =>
      if ((0 <? m) && (m <? 65536))%N then ResultBoolean true
      else ResultString "port out of range"
  | _ => ResultString "port out of range"
  end.

Definition checked : EnvSchema :=
  [("PORT", DeclNumber (Some portValidator) None)].

Definition checking : EnvManager :=
  mkEnvManager ∅ checked false None defaultScopes.

End Sample.



(** ** Vocabulary of the further properties *)

(** The names of the source properties read, in the order of the log. *)
Fixpoint reads (evs : list Event) : list string :=
  match evs with
  | [] => []
  | EvGet name :: rest => name :: reads rest
  | EvCall _ _ :: rest => reads rest
  end.

(** The typed value the [switch] of [parseEnv] computes from a raw
    string. *)
Definition typed (declaration : EnvDeclaration) (rawValue : string)
  : JsValue :=
  match declaration with
  | DeclString _ _ => JsString rawValue
  | DeclNumber _ _ => JsNumber (Number rawValue)
  | DeclBoolean _ _ =>
      JsBoolean (bool_decide (rawValue = "true")
                 || bool_decide (rawValue = "1"))
  end.

(** The value a manager stores under a key: read at the effective
    lookup key, [undefined] when nothing is there. *)
Definition expectedAt (this : EnvManager) (w : World) (key : string)
    (declaration : EnvDeclaration) : JsValue :=
  match lookupSource w (getPrefixedName this key) with
  | None => JsUndefined
  | Some rawValue => typed declaration rawValue
  end.

Definition storeAt (this : EnvManager) (w : World) (parsedEnv : ParsedEnv)
    (entry : string * EnvDeclaration) : ParsedEnv :=
  setProperty parsedEnv (fst entry)
    (expectedAt this w (fst entry) (snd entry)).

(** A key of the schema is served at its effective lookup key: the raw
    value there is accepted, or there is none and the key is optional. *)
Definition servedAt (this : EnvManager) (w : World)
    (entry : string * EnvDeclaration) : Prop :=
  match lookupSource w (getPrefixedName this (fst entry)) with
  | Some rawValue => accepts (snd entry) rawValue = true
  | None => required (snd entry) = Some false
  end.

(** The variable an error names, rewritten by [f]. *)
Definition renamed (f : string -> string) (e : Error) : Error :=
  match e with
  | MissingVariableError rawName => MissingVariableError (f rawName)
  | InvalidNumberError rawName => InvalidNumberError (f rawName)
  | InvalidBooleanError rawName => InvalidBooleanError (f rawName)
  | ValidationError rawName detail => ValidationError (f rawName) detail
  | InvalidSourceError | ScopeUndeterminedError _ => e
  end.

Definition mapThrow {A : Type} (f : Error -> Error) (o : Outcome A)
  : Outcome A :=
  match o with
  | Return a => Return a
  | Throw e => Throw (f e)
  end.

(** What a caller sees of a construction: the mapping [data()] returns,
    or the error. *)
Definition parsed (r : Outcome EnvManager * World) : Outcome ParsedEnv :=
  match fst r with
  | Return m => Return (_env m)
  | Throw e => Throw e
  end.

(** The variable a parse error names. *)
Definition named (e : Error) : option string :=
  match e with
  | MissingVariableError rawName | InvalidNumberError rawName
  | InvalidBooleanError rawName | ValidationError rawName _ => Some rawName
  | InvalidSourceError | ScopeUndeterminedError _ => None
  end.

(** [parsedEnv[key] = g entry], the assignment that ends a turn of the
    loop. *)
Definition assigned (g : string * EnvDeclaration -> JsValue)
    (parsedEnv : ParsedEnv) (entry : string * EnvDeclaration) : ParsedEnv :=
  setProperty parsedEnv (fst entry) (g entry).

Example Number_42 : Number "42" = Dec false 42 0.
Proof. reflexivity. Qed.

Example Number_padded : Number "  8080 " = Dec false 8080 0.
Proof. reflexivity. Qed.

Example Number_fraction : Number "-12.50e3" = Dec true 1250 1.
Proof. reflexivity. Qed.

Example Number_dot : Number ".5" = Dec false 5 (-1).
Proof. reflexivity. Qed.

Example Number_hex : Number "0x1F" = Dec false 31 0.
Proof. reflexivity. Qed.

Example Number_signed_hex : Number "-0x1F" = NaN.
Proof. reflexivity. Qed.

Example Number_infinity : Number "-Infinity" = Infinity true.
Proof. reflexivity. Qed.

Example Number_empty : Number "" = Dec false 0 0.
Proof. reflexivity. Qed.

Example Number_word : Number "not-a-number" = NaN.
Proof. reflexivity. Qed.

Example Number_residue : Number "12abc" = NaN.
Proof. reflexivity. Qed.

Example Number_lone_dot : Number "." = NaN.
Proof. reflexivity. Qed.

Example Number_open_exponent : Number "1e" = NaN.
Proof. reflexivity. Qed.

Example keys_order :
  JsObject.keys [("b", 1); ("10", 2); ("a", 3); ("2", 4); ("01", 5)]
  = ["2"; "10"; "b"; "a"; "01"].
Proof. reflexivity. Qed.

Example spread_order :
  JsObject.spread [("x", "1"); ("y", "2")] [("z", "3"); ("x", "4")]
  = [("x", "4"); ("y", "2"); ("z", "3")].
Proof. reflexivity. Qed.

(** ** The test suite of the repository, replayed on the model *)

Example parses_all_types :
  match fst (createManager Sample.baseSchema Sample.baseSource None) with
  | Return m =>
      _env m !! "STRING_VAR" = Some (JsString "hello")
      /\ _env m !! "NUMBER_VAR" = Some (JsNumber (Dec false 42 0))
      /\ _env m !! "BOOL_VAR" = Some (JsBoolean true)
      /\ _env m !! "OPTIONAL_VAR" = Some JsUndefined
  | Throw _ => False
  end.
Proof. vm_compute. auto. Qed.

Example throws_on_missing_required_variable :
  Sample.result
    (createManager Sample.baseSchema
       (delete "STRING_VAR" Sample.baseSource) None)
  = inr "[Env Manager] - Missing required environment variable: STRING_VAR".
Proof. reflexivity. Qed.

Example throws_on_invalid_number :
  Sample.result
    (createManager Sample.baseSchema
       (<["NUMBER_VAR" := Some "not-a-number"]> Sample.baseSource) None)
  = inr "[Env Manager] - Environment variable NUMBER_VAR is not a valid number.".
Proof. reflexivity. Qed.

Example throws_on_invalid_boolean :
  fst (createManager Sample.baseSchema
         (<["BOOL_VAR" := Some "not-a-bool"]> Sample.baseSource) None)
  = Throw (InvalidBooleanError "BOOL_VAR").
Proof. reflexivity. Qed.

Example supports_optional_variables :
  Sample.result
    (createManager [("OPTIONAL_VAR", DeclString None (Some false))]
       {["OPTIONAL_VAR" := None]} None)
  = inl [("OPTIONAL_VAR", JsUndefined)].
Proof. reflexivity. Qed.

Example defaults_required_to_true :
  Sample.result
    (createManager [("STRING_VAR", DeclString None None)]
       {["STRING_VAR" := Some "abc"]} None)
  = inl [("STRING_VAR", JsString "abc")].
Proof. reflexivity. Qed.

Example uses_scope_prefix_when_enabled :
  Sample.result
    (createManager [("STRING_VAR", DeclString None (Some true))]
       (<["NODE_ENV" := Some "development"]>
          {["DEV_STRING_VAR" := Some "dev-hello"]})
       (Some Sample.scoped))
  = inl [("STRING_VAR", JsString "dev-hello")].
Proof. reflexivity. Qed.

Example throws_if_scope_enabled_but_NODE_ENV_missing :
  Sample.result
    (createManager [("STRING_VAR", DeclString None (Some true))]
       {["STRING_VAR" := Some "abc"]} (Some Sample.scoped))
  = inr "[Env Manager] - Scopes enabled but current scope could not be determined from source. Ensure NODE_ENV is set (development | production | test | staging).".
Proof. reflexivity. Qed.

Example supports_custom_scopes :
  Sample.result
    (createManager [("STRING_VAR", DeclString None (Some true))]
       (<["NODE_ENV" := Some "custom"]>
          {["CUSTOM_STRING_VAR" := Some "custom-hello"]})
       (Some {| cfg_enableScopes := Some true;
                cfg_scopes := Some [("custom", "CUSTOM")] |}))
  = inl [("STRING_VAR", JsString "custom-hello")].
Proof. reflexivity. Qed.

Example supports_boolean_false_and_0 :
  map (fun raw =>
         Sample.result
           (createManager [("BOOL_VAR", DeclBoolean None (Some true))]
              {["BOOL_VAR" := Some raw]} None))
    ["true"; "1"; "false"; "0"]
  = [inl [("BOOL_VAR", JsBoolean true)]; inl [("BOOL_VAR", JsBoolean true)];
     inl [("BOOL_VAR", JsBoolean false)]; inl [("BOOL_VAR", JsBoolean false)]].
Proof. reflexivity. Qed.

Example handles_empty_schema :
  Sample.result (createManager [] Sample.baseSource None) = inl [].
Proof. reflexivity. Qed.

(** ** Reads and assignments that meet [Object.prototype] *)

Example reads_inherited_method :
  Sample.result
    (createManager [("toString", DeclString None None)] ∅ None)
  = inl [("toString", JsString "function toString() { [native code] }")].
Proof. reflexivity. Qed.

Example inherited_method_is_no_number :
  Sample.result
    (createManager [("valueOf", DeclNumber None None)] ∅ None)
  = inr "[Env Manager] - Environment variable valueOf is not a valid number.".
Proof. reflexivity. Qed.

Example own_undefined_shadows_inherited :
  Sample.result
    (createManager [("toString", DeclString None (Some false))]
       {["toString" := None]} None)
  = inl [("toString", JsUndefined)].
Proof. reflexivity. Qed.

Example assignment_to_proto_binds_nothing :
  Sample.result
    (createManager [("__proto__", DeclString None None)]
       {["__proto__" := Some "x"]} None)
  = inl [].
Proof. reflexivity. Qed.

Example scope_named_like_inherited_method :
  Sample.result
    (createManager [("HOST", DeclString None None)]
       {["NODE_ENV" := Some "constructor"]} (Some Sample.scoped))
  = inr "[Env Manager] - Missing required environment variable: function Object() { [native code] }_HOST".
Proof. reflexivity. Qed.

(** * Properties *)

(** ** Plain objects *)

Module JsObjectFacts.
Import JsObject.

Section Facts.
Context {V : Type}.
Implicit Types (o a b : t V) (k : string) (v : V).

Lemma get_set o k v k' :
  get (set o k v) k' = if decide (k' = k) then Some v else get o k'.
Proof.
  induction o as [|[k0 v0] o IH]; simpl.
  - reflexivity.
  - destruct (decide (k = k0)) as [->|Hne]; simpl.
    + destruct (decide (k' = k0)); reflexivity.
    + rewrite IH. destruct (decide (k' = k0)) as [->|]; [|reflexivity].
      destruct (decide (k0 = k)); congruence.
Qed.

Lemma get_is_Some o k : is_Some (get o k) <-> k ∈ map fst o.
Proof.
  induction o as [|[k0 v0] o IH]; simpl.
  - split; [intros [? ?]; discriminate | intros H; inversion H].
  - rewrite elem_of_cons. destruct (decide (k = k0)) as [->|Hne].
    + split; eauto.
    + rewrite IH. split; [auto | intros [?|?]; [contradiction | assumption]].
Qed.

Lemma elem_of_insertIndex i k (l : list (N * string)) p :
  p ∈ insertIndex i k l <-> p = (i, k) \/ p ∈ l.
Proof.
  induction l as [|[j k'] l IH]; simpl.
  - rewrite list_elem_of_singleton. split; [auto | intros [?|H]; [assumption | inversion H]].
  - destruct (i <=? j)%N.
    + rewrite elem_of_cons. reflexivity.
    + rewrite !elem_of_cons, IH. tauto.
Qed.

Lemma elem_of_indexKeys (ks : list string) i k :
  (i, k) ∈ indexKeys ks <-> k ∈ ks /\ arrayIndex k = Some i.
Proof.
  induction ks as [|k0 ks IH]; simpl.
  - split; [intros H; inversion H | intros [H _]; inversion H].
  - rewrite elem_of_cons. destruct (arrayIndex k0) as [i0|] eqn:E.
    + rewrite elem_of_insertIndex, IH. split.
      * intros [Heq|[? ?]]; [inversion Heq; subst; auto | auto].
      * intros [[->|Hin] Hi]; [left; congruence | right; auto].
    + rewrite IH. split; [intros [? ?]; auto |].
      intros [[->|Hin] Hi]; [congruence | auto].
Qed.

(** [Object.keys] lists exactly the keys that are set. *)
Lemma elem_of_keys o k : k ∈ keys o <-> is_Some (get o k).
Proof.
  rewrite get_is_Some. unfold keys. rewrite elem_of_app. split.
  - intros [H|H].
    + apply list_elem_of_In, in_map_iff in H as [[i k'] [<- H]].
      apply list_elem_of_In, elem_of_indexKeys in H as [H _]. exact H.
    + apply list_elem_of_In, filter_In in H as [H _].
      apply list_elem_of_In, H.
  - intros H. unfold isStringKey.
    destruct (arrayIndex k) as [i|] eqn:E; [left | right].
    + apply list_elem_of_In, in_map_iff. exists (i, k).
      split; [reflexivity |].
      apply list_elem_of_In, elem_of_indexKeys. auto.
    + apply list_elem_of_In, filter_In. rewrite E.
      split; [apply list_elem_of_In, H | reflexivity].
Qed.

Lemma get_assign_keys b (ks : list string) a k :
  get (fold_left
         (fun o k => match get b k with Some v => set o k v | None => o end)
         ks a) k
  = match get b k with
    | Some v => if decide (k ∈ ks) then Some v else get a k
    | None => get a k
    end.
Proof.
  revert a. induction ks as [|k0 ks IH]; intros a; simpl.
  - destruct (get b k); [|reflexivity].
    destruct (decide (k ∈ [])) as [H|]; [inversion H | reflexivity].
  - rewrite IH. destruct (get b k) as [v|] eqn:Ek.
    + destruct (decide (k ∈ ks)) as [Hin|Hnin].
      * rewrite decide_True by (apply elem_of_cons; auto). reflexivity.
      * destruct (decide (k = k0)) as [->|Hne].
        -- rewrite decide_True by (apply elem_of_cons; auto).
           rewrite Ek, get_set, decide_True by reflexivity. reflexivity.
        -- rewrite decide_False
             by (rewrite elem_of_cons; intros [?|?]; contradiction).
           destruct (get b k0); [|reflexivity].
           rewrite get_set, decide_False by assumption. reflexivity.
    + destruct (get b k0) as [v0|] eqn:E0; [|reflexivity].
      rewrite get_set. destruct (decide (k = k0)); [congruence | reflexivity].
Qed.

Lemma get_assign a b k :
  get (assign a b) k
  = match get b k with Some v => Some v | None => get a k end.
Proof.
  unfold assign. rewrite get_assign_keys.
  destruct (get b k) as [v|] eqn:E; [|reflexivity].
  rewrite decide_True; [reflexivity |]. apply elem_of_keys. eauto.
Qed.

(** A spread reads as its last operand where that one is set, as the
    first one elsewhere. *)
Lemma get_spread a b k :
  get (spread a b) k
  = match get b k with Some v => Some v | None => get a k end.
Proof.
  unfold spread. rewrite !get_assign. simpl.
  destruct (get b k); [reflexivity |]. destruct (get a k); reflexivity.
Qed.

End Facts.

End JsObjectFacts.

(** ** Running the constructor *)

Local Open Scope js_scope.

Ltac run :=
  unfold create, parseEnv, finish, parseEntry, validate, callValidator,
    initCurrentScope, getSource, sourceMissing, bind, ret, throw, freeze;
  simpl.

Lemma source_logged w e : source (logged w e) = source w.
Proof. reflexivity. Qed.

Lemma lookupSource_logged w e name :
  lookupSource (logged w e) name = lookupSource w name.
Proof. reflexivity. Qed.

Lemma lookupSource_frame w w' name :
  source w' = source w -> lookupSource w' name = lookupSource w name.
Proof. unfold lookupSource, readSource. intros ->. reflexivity. Qed.

Lemma validate_None {A} (inj : A -> JsValue) key rawName v w :
  validate inj key rawName None v w = (Return tt, w).
Proof. reflexivity. Qed.

Lemma validate_Some {A} (inj : A -> JsValue) key rawName f v w :
  validate inj key rawName (Some f) v w
  = let w' := logged w (EvCall key (inj v)) in
    match f v with
    | ResultBoolean true => (Return tt, w')
    | ResultBoolean false => (Throw (ValidationError rawName ""), w')
    | ResultString s => (Throw (ValidationError rawName s), w')
    end.
Proof. run. destruct (f v) as [[|]|s]; reflexivity. Qed.

Lemma validate_source {A} (inj : A -> JsValue) key rawName validator v w :
  source (snd (validate inj key rawName validator v w)) = source w.
Proof.
  destruct validator as [f|]; [|reflexivity].
  rewrite validate_Some. simpl. destruct (f v) as [[|]|s]; reflexivity.
Qed.

Lemma function_text_not_literal name literal :
  literal ∈ ["true"; "false"; "1"; "0"] ->
  ObjectPrototype.toString (ObjectPrototype.BuiltinFunction name) <> literal.
Proof.
  intros Hin.
  repeat (apply elem_of_cons in Hin as [->|Hin]); [| | | |inversion Hin];
    discriminate.
Qed.

(** An inherited object is none of the boolean literals, and neither is
    its string. *)
Lemma convert_inherited_boolean validator req o :
  convert (DeclBoolean validator req) (ObjectPrototype.toString o) = None.
Proof.
  unfold convert.
  assert (forall literal,
            literal ∈ ["true"; "false"; "1"; "0"] ->
            bool_decide (ObjectPrototype.toString o = literal) = false) as H.
  { intros literal Hin. apply bool_decide_eq_false_2.
    destruct o as [name|]; [apply function_text_not_literal, Hin |].
    repeat (apply elem_of_cons in Hin as [->|Hin]); [| | | |inversion Hin];
      discriminate. }
  rewrite !H by (apply list_elem_of_In; simpl; auto). reflexivity.
Qed.

(** The loop body in terms of [convert] and [answer]: it treats what it
    reads as the string [lookupSource] gives. *)
Lemma parseEntry_run this key declaration parsedEnv w :
  parseEntry this key declaration parsedEnv w
  = let rawName := getPrefixedName this key in
    let w1 := logged w (EvGet rawName) in
    match lookupSource w rawName with
    | None =>
        if default true (required declaration)
        then (Throw (MissingVariableError rawName), w1)
        else (Return (setProperty parsedEnv key JsUndefined), w1)
    | Some rawValue =>
        match convert declaration rawValue with
        | None =>
            (Throw match declaration with
                   | DeclBoolean _ _ => InvalidBooleanError rawName
                   | _ => InvalidNumberError rawName
                   end, w1)
        | Some v =>
            match answer declaration v with
            | None => (Return (setProperty parsedEnv key v), w1)
            | Some result =>
                let w2 := logged w1 (EvCall key v) in
                match result with
                | ResultBoolean true =>
                    (Return (setProperty parsedEnv key v), w2)
                | ResultBoolean false =>
                    (Throw (ValidationError rawName ""), w2)
                | ResultString s => (Throw (ValidationError rawName s), w2)
                end
            end
        end
    end.
Proof.
  unfold parseEntry, bind at 1, getSource, lookupSource. simpl.
  destruct (readSource w (getPrefixedName this key)) as [|rawValue|o]; simpl.
  - destruct (default true (required declaration)); reflexivity.
  - destruct declaration as [validator r|validator r|validator r]; simpl.
    + unfold bind. destruct validator as [f|];
        [rewrite validate_Some; simpl; destruct (f rawValue) as [[|]|s]
        |rewrite validate_None]; reflexivity.
    + destruct (isNaN (Number rawValue)); [reflexivity |]. simpl.
      unfold bind. destruct validator as [f|];
        [rewrite validate_Some; simpl;
         destruct (f (Number rawValue)) as [[|]|s]
        |rewrite validate_None]; reflexivity.
    + destruct (bool_decide (rawValue = "true")) eqn:Et;
      destruct (bool_decide (rawValue = "1")) eqn:E1;
      destruct (bool_decide (rawValue = "false")) eqn:Ef;
      destruct (bool_decide (rawValue = "0")) eqn:E0; simpl;
        try reflexivity;
        unfold bind;
        (destruct validator as [f|];
         [rewrite validate_Some; simpl;
          match goal with |- context [f ?b] => destruct (f b) as [[|]|s] end
         |rewrite validate_None]; reflexivity).
  - destruct declaration as [validator r|validator r|validator r].
    + simpl. unfold bind. destruct validator as [f|];
        [rewrite validate_Some; simpl;
         destruct (f (ObjectPrototype.toString o)) as [[|]|s]
        |rewrite validate_None]; reflexivity.
    + simpl. destruct (isNaN (Number (ObjectPrototype.toString o)));
        [reflexivity |]. simpl.
      unfold bind. destruct validator as [f|];
        [rewrite validate_Some; simpl;
         destruct (f (Number (ObjectPrototype.toString o))) as [[|]|s]
        |rewrite validate_None]; reflexivity.
    + rewrite convert_inherited_boolean. reflexivity.
Qed.

Lemma lookupSource_own R log name :
  ObjectPrototype.member name = None ->
  lookupSource (mkWorld (Some R) log) name = mjoin (R !! name).
Proof.
  intros Hmember. unfold lookupSource, readSource, getProperty. simpl.
  rewrite Hmember. destruct (R !! name) as [[s|]|]; reflexivity.
Qed.

Lemma lookupSource_NODE_ENV R log :
  lookupSource (mkWorld (Some R) log) "NODE_ENV" = mjoin (R !! "NODE_ENV").
Proof. apply lookupSource_own. reflexivity. Qed.

Lemma parseEntry_source this key declaration parsedEnv w :
  source (snd (parseEntry this key declaration parsedEnv w)) = source w.
Proof.
  rewrite parseEntry_run. simpl.
  repeat case_match; reflexivity.
Qed.

Lemma parseEntries_source this entries parsedEnv w :
  source (snd (parseEntries this entries parsedEnv w)) = source w.
Proof.
  revert parsedEnv w.
  induction entries as [|[key declaration] rest IH]; intros parsedEnv w.
  - reflexivity.
  - simpl. unfold bind.
    pose proof (parseEntry_source this key declaration parsedEnv w) as H.
    destruct (parseEntry this key declaration parsedEnv w) as [[e|e] w'].
    + rewrite IH. exact H.
    + exact H.
Qed.

Lemma parseEntries_app this pre post parsedEnv w :
  parseEntries this (pre ++ post)%list parsedEnv w
  = bind (parseEntries this pre parsedEnv) (parseEntries this post) w.
Proof.
  revert parsedEnv w.
  induction pre as [|[key declaration] pre IH]; intros parsedEnv w.
  - reflexivity.
  - simpl. unfold bind.
    destruct (parseEntry this key declaration parsedEnv w) as [[e|e] w'].
    + exact (IH e w').
    + reflexivity.
Qed.

Lemma truthy_scope v : truthy (if truthy v then v else None) = truthy v.
Proof. destruct (truthy v) eqn:E; [exact E | reflexivity]. Qed.

(** What [initialise] returns, when it returns. *)
Lemma initialise_Return S config w0 this w1 :
  initialise S config w0 = (Return this, w1) ->
  is_Some (source w0)
  /\ w1 = logged w0 (EvGet "NODE_ENV")
  /\ this = mkEnvManager ∅ S (scopesEnabled config)
             (if truthy (lookupSource w0 "NODE_ENV")
              then lookupSource w0 "NODE_ENV" else None)
             (resolvedScopes config)
  /\ (scopesEnabled config = true ->
      truthy (lookupSource w0 "NODE_ENV") = true).
Proof.
  destruct w0 as [[R|] log]; unfold initialise; run; [|discriminate].
  change (asString (readSource (mkWorld (Some R) log) "NODE_ENV"))
    with (lookupSource (mkWorld (Some R) log) "NODE_ENV").
  set (v := lookupSource (mkWorld (Some R) log) "NODE_ENV").
  unfold configure, scopesEnabled, resolvedScopes.
  destruct config as [[[b|] [user|]]|]; simpl; unfold throw, ret;
    rewrite ?truthy_scope; try destruct b; simpl;
    destruct (truthy v) eqn:Ev; simpl;
    intros H; inversion H; subst; repeat split; eauto; discriminate.
Qed.

(** [initialise] returns unless scopes are enabled and no scope is
    known. *)
Lemma initialise_run S config R log :
  scopesEnabled config = false
  \/ truthy (lookupSource (mkWorld (Some R) log) "NODE_ENV") = true ->
  exists this,
    initialise S config (mkWorld (Some R) log)
    = (Return this, mkWorld (Some R) (log ++ [EvGet "NODE_ENV"])).
Proof.
  unfold initialise. run.
  change (asString (readSource (mkWorld (Some R) log) "NODE_ENV"))
    with (lookupSource (mkWorld (Some R) log) "NODE_ENV").
  set (v := lookupSource (mkWorld (Some R) log) "NODE_ENV").
  unfold configure, scopesEnabled.
  destruct config as [[[b|] [user|]]|]; simpl; unfold throw, ret;
    rewrite ?truthy_scope; try destruct b; simpl;
    destruct (truthy v) eqn:Ev; simpl;
    intros [H|H]; try discriminate; eauto.
Qed.

Lemma initialise_source S config w :
  source (snd (initialise S config w)) = source w.
Proof.
  unfold initialise. run.
  destruct (bool_decide (source w = None)); [reflexivity |].
  unfold configure.
  destruct config as [[[b|] user]|]; simpl; try reflexivity.
  unfold throw, ret. case_match; reflexivity.
Qed.

Lemma create_source S config w :
  source (snd (create S config w)) = source w.
Proof.
  unfold create, parseEnv, bind at 1 2 3.
  pose proof (initialise_source S config w) as H0.
  destruct (initialise S config w) as [[this|e] w1]; [|exact H0].
  pose proof (parseEntries_source this (schema this) ∅ w1) as H1.
  simpl in *.
  destruct (parseEntries this (schema this) ∅ w1) as [[env|e] w2];
    simpl in *; congruence.
Qed.

(** Construction from the key it has come to. *)
Lemma create_at_key S config w0 this pre key declaration post parsedEnv w :
  S = (pre ++ (key, declaration) :: post)%list ->
  reaches S config w0 this pre parsedEnv w ->
  create S config w0
  = bind (parseEntry this key declaration parsedEnv)
      (finish this post) w.
Proof.
  intros HS (w1 & Hinit & Hpre).
  pose proof (initialise_Return _ _ _ _ _ Hinit) as (_ & _ & Hthis & _).
  assert (schema this = S) as Hschema by (rewrite Hthis; reflexivity).
  unfold create, parseEnv, finish, bind at 1 2 3.
  rewrite Hinit, Hschema, HS, parseEntries_app.
  unfold bind at 1. rewrite Hpre. simpl. unfold bind.
  destruct (parseEntry this key declaration parsedEnv w) as [[e|e] w'];
    [|reflexivity].
  destruct (parseEntries this post e w') as [[e'|e'] w'']; reflexivity.
Qed.

Lemma reaches_source S config w0 this pre parsedEnv w :
  reaches S config w0 this pre parsedEnv w -> source w = source w0.
Proof.
  intros (w1 & Hinit & Hpre).
  pose proof (initialise_source S config w0) as H0.
  pose proof (parseEntries_source this pre ∅ w1) as H1.
  rewrite Hinit in H0. rewrite Hpre in H1. simpl in *. congruence.
Qed.

(** ** Errors raised while parsing *)

Lemma convert_boolean_None validator req rawValue :
  convert (DeclBoolean validator req) rawValue = None <->
  ~ (rawValue = "true" \/ rawValue = "false"
     \/ rawValue = "1" \/ rawValue = "0").
Proof.
  unfold convert.
  destruct (bool_decide_reflect (rawValue = "true"));
  destruct (bool_decide_reflect (rawValue = "1"));
  destruct (bool_decide_reflect (rawValue = "false"));
  destruct (bool_decide_reflect (rawValue = "0")); simpl;
    split; try discriminate; try tauto; intros H; exfalso; apply H; auto.
Qed.

Lemma parseEntry_Throw this key declaration parsedEnv w e w' :
  parseEntry this key declaration parsedEnv w = (Throw e, w') -> cause w e.
Proof.
  rewrite parseEntry_run. simpl.
  destruct (lookupSource w (getPrefixedName this key)) as [rawValue|] eqn:El.
  - destruct (convert declaration rawValue) as [v|] eqn:Ec.
    + destruct (answer declaration v) as [[[|]|s]|];
        intros H; inversion H; subst; exact I.
    + intros H; inversion H; subst.
      destruct declaration as [validator r|validator r|validator r];
        simpl in Ec.
      * discriminate.
      * exists rawValue. split; [exact El |].
        destruct (isNaN (Number rawValue)); [reflexivity | discriminate].
      * exists rawValue. split; [exact El |].
        apply (convert_boolean_None validator r), Ec.
  - destruct (default true (required declaration));
      intros H; inversion H; subst. exact El.
Qed.

Lemma cause_frame w w' e : source w' = source w -> cause w' e -> cause w e.
Proof.
  intros Hs. destruct e; simpl; try tauto;
    rewrite (lookupSource_frame _ _ _ Hs); tauto.
Qed.

Lemma parseEntries_Throw this entries parsedEnv w e w' :
  parseEntries this entries parsedEnv w = (Throw e, w') -> cause w e.
Proof.
  revert parsedEnv w.
  induction entries as [|[key declaration] rest IH]; intros parsedEnv w.
  - discriminate.
  - simpl. unfold bind.
    pose proof (parseEntry_source this key declaration parsedEnv w) as Hs.
    destruct (parseEntry this key declaration parsedEnv w) as [[env1|e1] w1]
      eqn:E1; simpl in Hs.
    + intros H. apply (cause_frame _ _ _ Hs), (IH _ _ H).
    + intros H; inversion H; subst. eapply parseEntry_Throw, E1.
Qed.

Lemma finish_Throw this entries parsedEnv w e :
  fst (finish this entries parsedEnv w) = Throw e -> cause w e.
Proof.
  unfold finish, bind.
  destruct (parseEntries this entries parsedEnv w) as [[env1|e1] w1] eqn:E1;
    simpl; [discriminate |].
  intros H; inversion H; subst. eapply parseEntries_Throw, E1.
Qed.

(** Construction from a key whose raw string converts. *)
Lemma create_converted S config w0 this pre key declaration post parsedEnv
    w rawValue v :
  S = (pre ++ (key, declaration) :: post)%list ->
  reaches S config w0 this pre parsedEnv w ->
  lookupSource w0 (getPrefixedName this key) = Some rawValue ->
  convert declaration rawValue = Some v ->
  create S config w0
  = let rawName := getPrefixedName this key in
    let w1 := logged w (EvGet rawName) in
    let w2 := logged w1 (EvCall key v) in
    match answer declaration v with
    | None => finish this post (setProperty parsedEnv key v) w1
    | Some (ResultBoolean true) =>
        finish this post (setProperty parsedEnv key v) w2
    | Some (ResultBoolean false) => (Throw (ValidationError rawName ""), w2)
    | Some (ResultString s) => (Throw (ValidationError rawName s), w2)
    end.
Proof.
  intros HS Hreach Hraw Hconv.
  rewrite (create_at_key _ _ _ _ _ _ _ _ _ _ HS Hreach).
  unfold bind at 1. rewrite parseEntry_run. simpl.
  rewrite (lookupSource_frame _ _ _ (reaches_source _ _ _ _ _ _ _ Hreach)).
  rewrite Hraw, Hconv.
  destruct (answer declaration v) as [[[|]|s]|]; reflexivity.
Qed.

(** Construction from a key whose raw string does not convert. *)
Lemma create_refused S config w0 this pre key declaration post parsedEnv
    w rawValue :
  S = (pre ++ (key, declaration) :: post)%list ->
  reaches S config w0 this pre parsedEnv w ->
  lookupSource w0 (getPrefixedName this key) = Some rawValue ->
  convert declaration rawValue = None ->
  create S config w0
  = (Throw match declaration with
           | DeclBoolean _ _ => InvalidBooleanError (getPrefixedName this key)
           | _ => InvalidNumberError (getPrefixedName this key)
           end, logged w (EvGet (getPrefixedName this key))).
Proof.
  intros HS Hreach Hraw Hconv.
  rewrite (create_at_key _ _ _ _ _ _ _ _ _ _ HS Hreach).
  unfold bind at 1. rewrite parseEntry_run. simpl.
  rewrite (lookupSource_frame _ _ _ (reaches_source _ _ _ _ _ _ _ Hreach)).
  rewrite Hraw, Hconv. reflexivity.
Qed.

(** ** Messages *)

Lemma string_app_assoc (a b c : string) : (a +:+ b) +:+ c = a +:+ b +:+ c.
Proof.
  induction a as [|x a IH]; [reflexivity |].
  unfold String.append in *; simpl; fold String.append in *.
  f_equal. exact IH.
Qed.

Lemma string_app_nil_r (a : string) : a +:+ "" = a.
Proof.
  induction a as [|x a IH]; [reflexivity |].
  unfold String.append in *; simpl; fold String.append in *.
  f_equal. exact IH.
Qed.

Ltac includes_at before after :=
  exists before, after; simpl;
  rewrite ?string_app_assoc, ?string_app_nil_r; reflexivity.

(** ** Every error of a construction has its cause in the source *)

Lemma initialise_Throw S config w e w' :
  initialise S config w = (Throw e, w') ->
  e = InvalidSourceError \/ exists names, e = ScopeUndeterminedError names.
Proof.
  unfold initialise. run.
  destruct (bool_decide (source w = None)).
  - intros H; inversion H; auto.
  - unfold configure.
    destruct config as [[[b|] user]|]; simpl; unfold ret, throw;
      try discriminate.
    case_match; intros Hx; inversion Hx; eauto.
Qed.

Lemma create_Throw S config w e :
  fst (create S config w) = Throw e ->
  e = InvalidSourceError
  \/ (exists names, e = ScopeUndeterminedError names)
  \/ cause w e.
Proof.
  unfold create, parseEnv, bind at 1 2 3.
  pose proof (initialise_source S config w) as Hs.
  destruct (initialise S config w) as [[this|e0] w1] eqn:Hinit; simpl in *.
  - destruct (parseEntries this (schema this) ∅ w1) as [[env|e1] w2] eqn:Hp;
      simpl; [discriminate |].
    intros H; inversion H; subst. right; right.
    eapply cause_frame; [exact Hs | eapply parseEntries_Throw, Hp].
  - intros H; inversion H; subst.
    destruct (initialise_Throw _ _ _ _ _ Hinit) as [He|He]; auto.
Qed.

(** ** Construction as a whole *)

Lemma create_finish S config w0 this w1 :
  initialise S config w0 = (Return this, w1) ->
  create S config w0 = finish this S ∅ w1.
Proof.
  intros Hinit.
  pose proof (initialise_Return _ _ _ _ _ Hinit) as (_ & _ & Hthis & _).
  assert (schema this = S) as Hschema by (rewrite Hthis; reflexivity).
  unfold create, parseEnv, finish, bind at 1 2 3.
  rewrite Hinit, Hschema.
  unfold bind. destruct (parseEntries this S ∅ w1) as [[env|e] w2];
    reflexivity.
Qed.

Lemma create_Return S config w0 m w' :
  create S config w0 = (Return m, w') ->
  exists this w1 parsedEnv,
    initialise S config w0 = (Return this, w1)
    /\ parseEntries this S ∅ w1 = (Return parsedEnv, w')
    /\ m = set_env this parsedEnv.
Proof.
  destruct (initialise S config w0) as [[this|e] w1] eqn:Hinit.
  - rewrite (create_finish _ _ _ _ _ Hinit). unfold finish, bind.
    destruct (parseEntries this S ∅ w1) as [[env|e] w2] eqn:Hp;
      [|discriminate].
    unfold ret, freeze. intros H; inversion H; subst. eauto 6.
  - unfold create, bind at 1. rewrite Hinit. discriminate.
Qed.

Lemma prefix_not_empty (prefix : string) : prefix +:+ "_" <> "".
Proof. destruct prefix; discriminate. Qed.

Lemma events_logged w e : events (logged w e) = (events w ++ [e])%list.
Proof. reflexivity. Qed.

(** ** The loop, key by key *)

Lemma reads_app (a b : list Event) : reads (a ++ b) = (reads a ++ reads b)%list.
Proof.
  induction a as [|[name|key v] a IH]; simpl; [reflexivity | |exact IH].
  rewrite IH. reflexivity.
Qed.

Lemma convert_typed declaration rawValue v :
  convert declaration rawValue = Some v -> v = typed declaration rawValue.
Proof.
  destruct declaration as [f r|f r|f r]; simpl.
  - congruence.
  - destruct (isNaN (Number rawValue)); congruence.
  - destruct (bool_decide (rawValue = "true") || bool_decide (rawValue = "1"));
      [congruence |].
    destruct (bool_decide (rawValue = "false") || bool_decide (rawValue = "0"));
      congruence.
Qed.

Lemma servedAt_frame this w w' entry :
  source w' = source w -> servedAt this w' entry <-> servedAt this w entry.
Proof.
  intros Hs. unfold servedAt. rewrite (lookupSource_frame _ _ _ Hs). tauto.
Qed.

Lemma storeAt_frame this w w' :
  source w' = source w -> storeAt this w' = storeAt this w.
Proof.
  intros Hs. unfold storeAt, expectedAt.
  unfold lookupSource, readSource. rewrite Hs. reflexivity.
Qed.

(** One turn of the loop returns exactly when the key is served, and
    then stores the expected value. *)
Lemma parseEntry_Return this key declaration parsedEnv w :
  (servedAt this w (key, declaration) ->
   exists w',
     parseEntry this key declaration parsedEnv w
     = (Return (storeAt this w parsedEnv (key, declaration)), w'))
  /\ (forall parsedEnv' w',
        parseEntry this key declaration parsedEnv w = (Return parsedEnv', w') ->
        servedAt this w (key, declaration)
        /\ parsedEnv' = storeAt this w parsedEnv (key, declaration)).
Proof.
  unfold servedAt, storeAt, expectedAt, accepts. simpl.
  rewrite parseEntry_run. simpl.
  destruct (lookupSource w (getPrefixedName this key)) as [rawValue|].
  - destruct (convert declaration rawValue) as [v|] eqn:Ec.
    + rewrite <- (convert_typed _ _ _ Ec).
      destruct (answer declaration v) as [[[|]|s]|]; split;
        try discriminate; eauto;
        intros parsedEnv' w' H; inversion H; auto.
    + split; [discriminate |]. intros parsedEnv' w' H; inversion H.
  - destruct (required declaration) as [[|]|]; simpl; split;
      try discriminate; eauto; try congruence;
      intros parsedEnv' w' H; inversion H; auto.
Qed.

Lemma parseEntries_served_Return this entries parsedEnv w :
  Forall (servedAt this w) entries ->
  exists w',
    parseEntries this entries parsedEnv w
    = (Return (fold_left (storeAt this w) entries parsedEnv), w').
Proof.
  revert parsedEnv w.
  induction entries as [|[key declaration] rest IH]; intros parsedEnv w Hall.
  - simpl. unfold ret. eauto.
  - inversion Hall as [|? ? Hhead Hrest]; subst.
    destruct (proj1 (parseEntry_Return this key declaration parsedEnv w) Hhead)
      as [w1 H1].
    pose proof (parseEntry_source this key declaration parsedEnv w) as Hs.
    rewrite H1 in Hs. simpl in Hs.
    simpl. unfold bind. rewrite H1.
    rewrite <- (storeAt_frame this w w1 Hs).
    apply IH. eapply Forall_impl; [exact Hrest |].
    intros entry. apply (servedAt_frame this w w1 entry Hs).
Qed.

Lemma parseEntries_Return_served this entries parsedEnv w parsedEnv' w' :
  parseEntries this entries parsedEnv w = (Return parsedEnv', w') ->
  Forall (servedAt this w) entries
  /\ parsedEnv' = fold_left (storeAt this w) entries parsedEnv
  /\ reads (events w')
     = (reads (events w)
        ++ map (fun entry => getPrefixedName this (fst entry)) entries)%list.
Proof.
  revert parsedEnv w.
  induction entries as [|[key declaration] rest IH]; intros parsedEnv w.
  - simpl. unfold ret. intros H; inversion H; subst.
    rewrite app_nil_r. auto.
  - simpl. unfold bind.
    pose proof (parseEntry_source this key declaration parsedEnv w) as Hs.
    pose proof (parseEntry_run this key declaration parsedEnv w) as Hrun.
    destruct (parseEntry this key declaration parsedEnv w) as [[env1|e1] w1]
      eqn:E1; [|discriminate].
    simpl in Hs. intros H.
    destruct (proj2 (parseEntry_Return this key declaration parsedEnv w)
                _ _ E1) as [Hserved ->].
    destruct (IH _ _ H) as (Hall & -> & Hreads).
    split; [|split].
    + constructor; [exact Hserved |].
      eapply Forall_impl; [exact Hall |].
      intros entry. apply (servedAt_frame this w w1 entry Hs).
    + rewrite (storeAt_frame this w w1 Hs). reflexivity.
    + rewrite Hreads. simpl in Hrun.
      assert (reads (events w1)
              = (reads (events w) ++ [getPrefixedName this key])%list) as ->.
      { revert Hrun. repeat case_match; intros Hrun; inversion Hrun; subst;
          simpl; rewrite ?reads_app; simpl; rewrite ?app_nil_r;
          reflexivity. }
      rewrite <- app_assoc. reflexivity.
Qed.

(** A throwing loop has a first key that throws. *)
Lemma parseEntries_first_failure this entries parsedEnv w e w' :
  parseEntries this entries parsedEnv w = (Throw e, w') ->
  exists pre key declaration post parsedEnv1 w1,
    entries = (pre ++ (key, declaration) :: post)%list
    /\ parseEntries this pre parsedEnv w = (Return parsedEnv1, w1)
    /\ parseEntry this key declaration parsedEnv1 w1 = (Throw e, w').
Proof.
  revert parsedEnv w.
  induction entries as [|[key declaration] rest IH]; intros parsedEnv w.
  - discriminate.
  - simpl. unfold bind at 1.
    destruct (parseEntry this key declaration parsedEnv w) as [[env1|e1] w1]
      eqn:E1.
    + intros H.
      destruct (IH _ _ H)
        as (pre & key' & declaration' & post & env2 & w2 & -> & Hpre & Hfail).
      exists ((key, declaration) :: pre), key', declaration', post, env2, w2.
      split; [reflexivity |]. split; [|exact Hfail].
      simpl. unfold bind. rewrite E1. exact Hpre.
    + intros H; inversion H; subst.
      exists [], key, declaration, rest, parsedEnv, w.
      split; [reflexivity |]. split; [reflexivity | exact E1].
Qed.

Lemma parseEntry_Throw_reads this key declaration parsedEnv w e w' :
  parseEntry this key declaration parsedEnv w = (Throw e, w') ->
  named e = Some (getPrefixedName this key)
  /\ reads (events w')
     = (reads (events w) ++ [getPrefixedName this key])%list.
Proof.
  rewrite parseEntry_run. simpl.
  repeat case_match; intros Hx; inversion Hx; subst; simpl;
    rewrite ?reads_app; simpl; rewrite ?app_nil_r; auto.
Qed.

(** ** Objects built by a loop of assignments *)

Lemma setProperty_lookup parsedEnv key value k :
  setProperty parsedEnv key value !! k
  = if bool_decide (k = key /\ key <> "__proto__") then Some value
    else parsedEnv !! k.
Proof.
  unfold setProperty.
  destruct (bool_decide_reflect (key = "__proto__")) as [->|Hne].
  - rewrite bool_decide_eq_false_2 by tauto. reflexivity.
  - destruct (decide (k = key)) as [->|Hk].
    + rewrite bool_decide_eq_true_2 by tauto. apply lookup_insert_eq.
    + rewrite bool_decide_eq_false_2 by tauto.
      apply lookup_insert_ne. congruence.
Qed.

Lemma setProperty_insert parsedEnv key value :
  key <> "__proto__" ->
  setProperty parsedEnv key value = <[key := value]> parsedEnv.
Proof.
  intros Hne. unfold setProperty.
  rewrite bool_decide_eq_false_2 by exact Hne. reflexivity.
Qed.

Section Assignments.
Variable g : string * EnvDeclaration -> JsValue.

Lemma assigned_other entries parsedEnv key :
  key ∉ map fst entries ->
  fold_left (assigned g) entries parsedEnv !! key = parsedEnv !! key.
Proof.
  revert parsedEnv.
  induction entries as [|[key0 declaration0] rest IH]; intros parsedEnv;
    simpl; [reflexivity |].
  rewrite not_elem_of_cons. intros [Hne Hnin].
  rewrite (IH _ Hnin). unfold assigned. simpl.
  rewrite setProperty_lookup, bool_decide_eq_false_2 by tauto. reflexivity.
Qed.

(** No assignment binds [__proto__]. *)
Lemma assigned_proto entries parsedEnv :
  fold_left (assigned g) entries parsedEnv !! "__proto__"
  = parsedEnv !! "__proto__".
Proof.
  revert parsedEnv.
  induction entries as [|[key0 declaration0] rest IH]; intros parsedEnv;
    simpl; [reflexivity |].
  rewrite IH. unfold assigned. simpl.
  rewrite setProperty_lookup, bool_decide_eq_false_2; [reflexivity |].
  intros [<- H]. apply H. reflexivity.
Qed.

Lemma assigned_lookup entries parsedEnv key declaration :
  NoDup (map fst entries) ->
  (key, declaration) ∈ entries ->
  key <> "__proto__" ->
  fold_left (assigned g) entries parsedEnv !! key = Some (g (key, declaration)).
Proof.
  intros Hnd Hin Hkey. revert parsedEnv Hnd Hin.
  induction entries as [|[key0 declaration0] rest IH]; intros parsedEnv;
    simpl.
  - intros _ H. inversion H.
  - rewrite NoDup_cons, elem_of_cons. intros [Hnin Hnd] [Heq|Hin].
    + inversion Heq; subst. rewrite (assigned_other _ _ _ Hnin).
      unfold assigned. simpl.
      rewrite setProperty_lookup, bool_decide_eq_true_2 by tauto.
      reflexivity.
    + apply (IH _ Hnd Hin).
Qed.

(** The keys bound are those assigned, [__proto__] apart. *)
Lemma assigned_dom entries parsedEnv key :
  key ∈ dom (fold_left (assigned g) entries parsedEnv)
  <-> key ∈ dom parsedEnv \/ (key ∈ map fst entries /\ key <> "__proto__").
Proof.
  revert parsedEnv.
  induction entries as [|[key0 declaration0] rest IH]; intros parsedEnv;
    simpl.
  - rewrite elem_of_nil. tauto.
  - rewrite IH, elem_of_cons. unfold assigned. simpl.
    rewrite !elem_of_dom, setProperty_lookup.
    destruct (bool_decide_reflect (key = key0 /\ key0 <> "__proto__"))
      as [[-> Hne]|Hno].
    + split; [intros _; right; auto | intros _; left; eauto].
    + split; [tauto |]. intros [H|[[->|H] Hne]]; auto.
      exfalso. apply Hno. auto.
Qed.

Lemma assigned_dom_L entries parsedEnv :
  dom (fold_left (assigned g) entries parsedEnv)
  = dom parsedEnv ∪ (list_to_set (map fst entries) ∖ {["__proto__"]}).
Proof.
  apply set_eq. intros key.
  rewrite assigned_dom, elem_of_union, elem_of_difference,
    elem_of_list_to_set, elem_of_singleton.
  reflexivity.
Qed.

End Assignments.

(** ** The set-up of the manager, in closed form *)

Lemma initialise_present S config R log :
  initialise S config (mkWorld (Some R) log)
  = (let v := mjoin (R !! "NODE_ENV") in
     if scopesEnabled config && negb (truthy v)
     then Throw (ScopeUndeterminedError
                   (JsObject.keys (resolvedScopes config)))
     else Return (mkEnvManager ∅ S (scopesEnabled config)
                    (if truthy v then v else None) (resolvedScopes config)),
     mkWorld (Some R) (log ++ [EvGet "NODE_ENV"])).
Proof.
  rewrite <- (lookupSource_NODE_ENV R log).
  unfold initialise. run.
  change (asString (readSource (mkWorld (Some R) log) "NODE_ENV"))
    with (lookupSource (mkWorld (Some R) log) "NODE_ENV").
  set (v := lookupSource (mkWorld (Some R) log) "NODE_ENV").
  unfold configure, scopesEnabled, resolvedScopes.
  destruct config as [[[b|] [user|]]|]; simpl; unfold throw, ret;
    rewrite ?truthy_scope; try destruct b; simpl;
    destruct (truthy v); reflexivity.
Qed.

Lemma initialise_absent S config log :
  initialise S config (mkWorld None log)
  = (Throw InvalidSourceError, mkWorld None log).
Proof. reflexivity. Qed.

Lemma parsed_finish this entries parsedEnv w :
  parsed (finish this entries parsedEnv w)
  = fst (parseEntries this entries parsedEnv w).
Proof.
  unfold parsed, finish, bind.
  destruct (parseEntries this entries parsedEnv w) as [[env|e] w'];
    reflexivity.
Qed.

(** ** Two runs of the loop that read the same values *)

Lemma parseEntries_renamed this1 this2 f entries parsedEnv w1 w2 :
  (forall key declaration,
     (key, declaration) ∈ entries ->
     getPrefixedName this1 key = f (getPrefixedName this2 key)
     /\ lookupSource w1 (getPrefixedName this1 key)
        = lookupSource w2 (getPrefixedName this2 key)) ->
  fst (parseEntries this1 entries parsedEnv w1)
  = mapThrow (renamed f) (fst (parseEntries this2 entries parsedEnv w2)).
Proof.
  revert parsedEnv w1 w2.
  induction entries as [|[key declaration] rest IH];
    intros parsedEnv w1 w2 Hsame.
  - reflexivity.
  - destruct (Hsame key declaration) as [Hname Hlook];
      [apply elem_of_cons; auto |].
    assert (forall w1' w2',
              source w1' = source w1 -> source w2' = source w2 ->
              forall parsedEnv',
                fst (parseEntries this1 rest parsedEnv' w1')
                = mapThrow (renamed f)
                    (fst (parseEntries this2 rest parsedEnv' w2'))) as Hrest.
    { intros w1' w2' Hs1 Hs2 parsedEnv'. apply IH.
      intros key' declaration' Hin.
      rewrite (lookupSource_frame _ _ _ Hs1), (lookupSource_frame _ _ _ Hs2).
      apply (Hsame key' declaration'), elem_of_cons. auto. }
    simpl. unfold bind. rewrite !parseEntry_run. simpl.
    rewrite Hlook, Hname.
    destruct (lookupSource w2 (getPrefixedName this2 key)) as [rawValue|].
    + destruct (convert declaration rawValue) as [v|].
      * destruct (answer declaration v) as [[[|]|s]|];
          try reflexivity; apply Hrest; reflexivity.
      * destruct declaration; reflexivity.
    + destruct (default true (required declaration));
        [reflexivity | apply Hrest; reflexivity].
Qed.

Lemma renamed_id {A} (o : Outcome A) : mapThrow (renamed (fun n => n)) o = o.
Proof. destruct o as [a|[]]; reflexivity. Qed.

(** ** Validator calls *)

Lemma parseEntry_calls this key declaration parsedEnv w k v :
  EvCall k v ∈ events (snd (parseEntry this key declaration parsedEnv w)) ->
  EvCall k v ∈ events w
  \/ (k = key
      /\ exists rawValue,
           lookupSource w (getPrefixedName this key) = Some rawValue
           /\ convert declaration rawValue = Some v
           /\ is_Some (answer declaration v)).
Proof.
  rewrite parseEntry_run. simpl.
  destruct (lookupSource w (getPrefixedName this key)) as [rawValue|].
  - destruct (convert declaration rawValue) as [v0|] eqn:Ec.
    + destruct (answer declaration v0) as [result|] eqn:Ea.
      * assert (EvCall k v ∈ events (logged (logged w
                  (EvGet (getPrefixedName this key))) (EvCall key v0)) ->
                EvCall k v ∈ events w
                \/ (k = key
                    /\ exists rawValue0,
                         Some rawValue = Some rawValue0
                         /\ convert declaration rawValue0 = Some v
                         /\ is_Some (answer declaration v))) as Hlog.
        { simpl. rewrite !elem_of_app, !list_elem_of_singleton.
          intros [[H|H]|H]; [auto | discriminate |].
          inversion H; subst. right. split; [reflexivity |].
          exists rawValue. rewrite Ea. eauto. }
        destruct result as [[|]|s]; exact Hlog.
      * simpl. rewrite elem_of_app, list_elem_of_singleton.
        intros [H|H]; [auto | discriminate].
    + simpl. rewrite elem_of_app, list_elem_of_singleton.
      intros [H|H]; [auto | discriminate].
  - destruct (default true (required declaration)); simpl;
      rewrite elem_of_app, list_elem_of_singleton;
      intros [H|H]; auto; discriminate.
Qed.

Lemma parseEntries_calls this entries parsedEnv w k v :
  EvCall k v ∈ events (snd (parseEntries this entries parsedEnv w)) ->
  EvCall k v ∈ events w
  \/ exists declaration rawValue,
       (k, declaration) ∈ entries
       /\ lookupSource w (getPrefixedName this k) = Some rawValue
       /\ convert declaration rawValue = Some v
       /\ is_Some (answer declaration v).
Proof.
  revert parsedEnv w.
  induction entries as [|[key declaration] rest IH]; intros parsedEnv w.
  - simpl. auto.
  - simpl. unfold bind.
    pose proof (parseEntry_calls this key declaration parsedEnv w k v) as H1.
    pose proof (parseEntry_source this key declaration parsedEnv w) as Hs.
    destruct (parseEntry this key declaration parsedEnv w) as [[env1|e1] w1];
      simpl in H1, Hs.
    + intros H. destruct (IH _ _ H) as [Hin|(d & raw & Hin & Hl & Hc & Ha)].
      * destruct (H1 Hin) as [?|(-> & raw & Hl & Hc & Ha)]; [auto |].
        right. exists declaration, raw. rewrite elem_of_cons. auto.
      * right. exists d, raw. rewrite elem_of_cons.
        rewrite (lookupSource_frame _ _ _ Hs) in Hl. auto.
    + simpl. intros Hin.
      destruct (H1 Hin) as [?|(-> & raw & Hl & Hc & Ha)]; [auto |].
      right. exists declaration, raw. rewrite elem_of_cons. auto.
Qed.

(** ** Keys of plain objects *)

Section Keys.
Context {V : Type}.
Implicit Types (o a b : JsObject.t V) (k : string).

Lemma set_keys o k v :
  map fst (JsObject.set o k v)
  = if decide (k ∈ map fst o) then map fst o else (map fst o ++ [k])%list.
Proof.
  induction o as [|[k0 v0] o IH].
  - destruct (decide (k ∈ map fst (@nil (string * V)))) as [H|H];
      [inversion H | reflexivity].
  - cbn [JsObject.set].
    destruct (decide (k ∈ map fst ((k0, v0) :: o))) as [Hin|Hnin];
      destruct (decide (k = k0)) as [->|Hne]; cbn [map fst]; try reflexivity.
    + rewrite IH, decide_True; [reflexivity |].
      cbn [map fst] in Hin. apply elem_of_cons in Hin as [?|?];
        [contradiction | assumption].
    + exfalso. apply Hnin. cbn [map fst]. apply elem_of_cons. auto.
    + rewrite IH, decide_False; [reflexivity |].
      intros Hin. apply Hnin. cbn [map fst]. apply elem_of_cons. auto.
Qed.

Lemma set_NoDup o k v :
  NoDup (map fst o) -> NoDup (map fst (JsObject.set o k v)).
Proof.
  intros Hnd. rewrite set_keys.
  destruct (decide (k ∈ map fst o)) as [Hin|Hnin]; [exact Hnd |].
  apply NoDup_app. split; [exact Hnd |]. split.
  - intros x Hx Hk. apply list_elem_of_singleton in Hk. congruence.
  - apply NoDup_singleton.
Qed.

Lemma assign_NoDup a b :
  NoDup (map fst a) -> NoDup (map fst (JsObject.assign a b)).
Proof.
  unfold JsObject.assign. generalize (JsObject.keys b). intros ks.
  revert a. induction ks as [|k ks IH]; intros a Hnd; simpl; [exact Hnd |].
  apply IH. destruct (JsObject.get b k); [apply set_NoDup |]; exact Hnd.
Qed.

Lemma insertIndex_Permutation i k (l : list (N * string)) :
  map snd (JsObject.insertIndex i k l) ≡ₚ k :: map snd l.
Proof.
  induction l as [|[j k'] l IH]; simpl; [reflexivity |].
  destruct (i <=? j)%N; simpl; [reflexivity |].
  rewrite IH. apply Permutation_swap.
Qed.

Lemma indexKeys_NoDup (ks : list string) :
  NoDup ks -> NoDup (map snd (JsObject.indexKeys ks)).
Proof.
  induction ks as [|k ks IH]; simpl; [constructor |].
  rewrite NoDup_cons. intros [Hnin Hnd].
  destruct (JsObject.arrayIndex k) as [i|] eqn:E; [|auto].
  rewrite insertIndex_Permutation. apply NoDup_cons. split; [|auto].
  intros Hin. apply list_elem_of_In, in_map_iff in Hin as [[j k'] [Heq Hin]].
  simpl in Heq. subst k'.
  apply list_elem_of_In, JsObjectFacts.elem_of_indexKeys in Hin as [Hin _].
  contradiction.
Qed.

Lemma keys_NoDup o : NoDup (map fst o) -> NoDup (JsObject.keys o).
Proof.
  intros Hnd. unfold JsObject.keys. apply NoDup_app.
  split; [apply indexKeys_NoDup, Hnd |]. split.
  - intros k Hidx Hstr.
    apply list_elem_of_In, in_map_iff in Hidx as [[i k'] [Heq Hidx]].
    simpl in Heq. subst k'.
    apply list_elem_of_In, JsObjectFacts.elem_of_indexKeys in Hidx as [_ Hi].
    apply list_elem_of_In, filter_In in Hstr as [_ Hs].
    unfold JsObject.isStringKey in Hs. rewrite Hi in Hs. discriminate.
  - apply NoDup_ListNoDup, List.NoDup_filter, NoDup_ListNoDup, Hnd.
Qed.

End Keys.

(** ** Construction as seen by the caller *)

Lemma getPrefixedName_set_env this parsedEnv name :
  getPrefixedName (set_env this parsedEnv) name = getPrefixedName this name.
Proof. reflexivity. Qed.

Lemma create_present S config R log :
  create S config (mkWorld (Some R) log)
  = (let v := mjoin (R !! "NODE_ENV") in
     let w1 := mkWorld (Some R) (log ++ [EvGet "NODE_ENV"]) in
     if scopesEnabled config && negb (truthy v)
     then (Throw (ScopeUndeterminedError
                    (JsObject.keys (resolvedScopes config))), w1)
     else finish (mkEnvManager ∅ S (scopesEnabled config)
                    (if truthy v then v else None) (resolvedScopes config))
            S ∅ w1).
Proof.
  pose proof (initialise_present S config R log) as Hinit. simpl in *.
  destruct (scopesEnabled config && negb (truthy (mjoin (R !! "NODE_ENV")))).
  - unfold create, bind at 1. rewrite Hinit. reflexivity.
  - apply create_finish, Hinit.
Qed.

Lemma truthy_false v : truthy v = false <-> v = None \/ v = Some "".
Proof.
  destruct v as [s|]; simpl; [|tauto].
  destruct (bool_decide_reflect (s = "")) as [->|Hne]; simpl.
  - tauto.
  - split; [discriminate |]. intros [H|H]; congruence.
Qed.

Lemma parsed_create_present S config R log :
  parsed (create S config (mkWorld (Some R) log))
  = (let v := mjoin (R !! "NODE_ENV") in
     if scopesEnabled config && negb (truthy v)
     then Throw (ScopeUndeterminedError
                   (JsObject.keys (resolvedScopes config)))
     else fst (parseEntries
                 (mkEnvManager ∅ S (scopesEnabled config)
                    (if truthy v then v else None) (resolvedScopes config))
                 S ∅ (mkWorld (Some R) (log ++ [EvGet "NODE_ENV"])))).
Proof.
  rewrite create_present. simpl.
  destruct (scopesEnabled config && negb (truthy (mjoin (R !! "NODE_ENV"))));
    [reflexivity | apply parsed_finish].
Qed.

(** ** A joined list shows each of its items *)

Lemma join_includes sep (l : list string) x :
  x ∈ l -> includes (join sep l) x.
Proof.
  induction l as [|y l IH]; [intros H; inversion H |].
  rewrite elem_of_cons. intros [->|Hin].
  - destruct l as [|z l]; simpl.
    + exists "", "". rewrite string_app_nil_r. reflexivity.
    + exists "", (sep +:+ join sep (z :: l)). reflexivity.
  - destruct (IH Hin) as (before & after & Heq).
    destruct l as [|z l]; [inversion Hin |].
    exists (y +:+ sep +:+ before), after.
    change (join sep (y :: z :: l)) with (y +:+ sep +:+ join sep (z :: l)).
    rewrite Heq, !string_app_assoc. reflexivity.
Qed.

(** ** What a construction has read, whatever its outcome *)

Lemma take_failing {A} (pre : list A) x post :
  take (S (length pre)) (pre ++ x :: post) = (pre ++ [x])%list.
Proof. induction pre as [|y pre IH]; simpl; [|rewrite IH]; reflexivity. Qed.

Lemma parseEntries_reads_any this entries parsedEnv w :
  exists n,
    n <= length entries
    /\ (entries <> [] -> 0 < n)
    /\ (forall parsedEnv' w',
          parseEntries this entries parsedEnv w = (Return parsedEnv', w') ->
          n = length entries)
    /\ reads (events (snd (parseEntries this entries parsedEnv w)))
       = (reads (events w)
          ++ map (fun entry => getPrefixedName this (fst entry))
               (take n entries))%list.
Proof.
  destruct (parseEntries this entries parsedEnv w) as [[env|e] w'] eqn:Hp.
  - destruct (parseEntries_Return_served _ _ _ _ _ _ Hp) as (_ & _ & Hreads).
    exists (length entries). split; [lia |]. split.
    + destruct entries; [congruence | simpl; lia].
    + split; [reflexivity |]. simpl. rewrite firstn_all. exact Hreads.
  - destruct (parseEntries_first_failure _ _ _ _ _ _ Hp)
      as (pre & key & declaration & post & env1 & w1 & -> & Hpre & Hfail).
    destruct (parseEntries_Return_served _ _ _ _ _ _ Hpre)
      as (_ & _ & Hreads).
    destruct (parseEntry_Throw_reads _ _ _ _ _ _ _ Hfail) as [_ Hlast].
    exists (S (length pre)). rewrite length_app. simpl.
    split; [lia |]. split; [lia |]. split; [discriminate |].
    rewrite take_failing, map_app, Hlast, Hreads, <- app_assoc. reflexivity.
Qed.

Lemma finish_events this entries parsedEnv w :
  events (snd (finish this entries parsedEnv w))
  = events (snd (parseEntries this entries parsedEnv w)).
Proof.
  unfold finish, bind.
  destruct (parseEntries this entries parsedEnv w) as [[env|e] w'];
    reflexivity.
Qed.

Lemma finish_Return this entries parsedEnv w m w' :
  finish this entries parsedEnv w = (Return m, w') ->
  exists parsedEnv',
    parseEntries this entries parsedEnv w = (Return parsedEnv', w').
Proof.
  unfold finish, bind.
  destruct (parseEntries this entries parsedEnv w) as [[env|e] w1];
    [|discriminate].
  unfold ret. intros H; inversion H; subst. eauto.
Qed.

(** * The properties of the specification *)




(** C2, as the code has it. A Number key whose raw value is present at
    the effective lookup key: construction throws the invalid-number error
    naming the effective lookup key exactly when [Number(rawValue)] is
    NaN; otherwise the typed value handed to the validator and stored
    under the key is [Number(rawValue)].  A string that leaves a residue
    after its numeric literal, such as [12abc], is NaN; the empty string
    converts to 0 and [Infinity] to infinity, and both are accepted. *)
Theorem number_key S config w0 this pre key validator req post parsedEnv w
    rawValue :
  S = (pre ++ (key, DeclNumber validator req) :: post)%list ->
  reaches S config w0 this pre parsedEnv w ->
  lookupSource w0 (getPrefixedName this key) = Some rawValue ->
  let rawName := getPrefixedName this key in
  let w' := logged w (EvGet rawName) in
  (fst (create S config w0) = Throw (InvalidNumberError rawName)
   <-> isNaN (Number rawValue) = true)
  /\ (isNaN (Number rawValue) = true ->
      create S config w0 = (Throw (InvalidNumberError rawName), w'))
  /\ (isNaN (Number rawValue) = false ->
      create S config w0
      = bind (validate JsNumber key rawName validator (Number rawValue))
          (fun _ =>
             finish this post
               (setProperty parsedEnv key (JsNumber (Number rawValue)))) w')
  /\ includes (message (InvalidNumberError rawName)) rawName
  /\ (forall s, StringToNumber.residue s <> "" -> isNaN (Number s) = true)
  /\ StringToNumber.residue "12abc" = "abc"
  /\ Number "" = Dec false 0 0
  /\ Number "Infinity" = Infinity false.
Proof.
  intros HS Hreach Hraw rawName w'.
  assert (isNaN (Number rawValue) = true ->
          create S config w0 = (Throw (InvalidNumberError rawName), w'))
    as Hnan.
  { intros E.
    rewrite (create_refused _ _ _ _ _ _ _ _ _ _ rawValue HS Hreach Hraw);
      [reflexivity |].
    simpl. rewrite E. reflexivity. }
  repeat split; try reflexivity.
  - intros Hthrow.
    destruct (create_Throw _ _ _ _ Hthrow) as [H|[[names H]|H]];
      try discriminate.
    destruct H as (rawValue' & Hraw' & E). fold rawName in Hraw.
    congruence.
  - intros E. rewrite (Hnan E). reflexivity.
  - exact Hnan.
  - intros E.
    rewrite (create_converted _ _ _ _ _ _ _ _ _ _ rawValue
               (JsNumber (Number rawValue)) HS Hreach Hraw)
      by (simpl; rewrite E; reflexivity).
    unfold bind.
    destruct validator as [f|]; [rewrite validate_Some | rewrite validate_None];
      simpl; [destruct (f (Number rawValue)) as [[|]|s] |]; reflexivity.
  - includes_at "[Env Manager] - Environment variable "
      " is not a valid number.".
  - intros s. unfold Number, StringToNumber.StringToNumber,
      StringToNumber.residue.
    destruct (StringToNumber.skipWhiteSpace s) as [|c s0];
      [intros H; contradiction |].
    destruct (StringToNumber.StrNumericLiteral (String c s0)) as [v rest].
    simpl.
    destruct (StringToNumber.skipWhiteSpace rest);
      [intros H; contradiction | reflexivity].
Qed.

Lemma number_key_witness :
  fst (create Sample.schema None
         (Sample.start (<["PORT" := Some "80 80"]> Sample.hostOnly)))
  = Throw (InvalidNumberError "PORT").
Proof.
  apply (number_key Sample.schema None
           (Sample.start (<["PORT" := Some "80 80"]> Sample.hostOnly))
           Sample.plain
           [("HOST", DeclString None None);
            ("DEBUG", DeclBoolean None (Some false))] "PORT" None None []
           (<["DEBUG" := JsUndefined]> {["HOST" := JsString "localhost"]})
           (mkWorld (Some (<["PORT" := Some "80 80"]> Sample.hostOnly))
              [EvGet "NODE_ENV"; EvGet "HOST"; EvGet "DEBUG"])
           "80 80").
  - reflexivity.
  - exists (mkWorld (Some (<["PORT" := Some "80 80"]> Sample.hostOnly))
              [EvGet "NODE_ENV"]).
    split; reflexivity.
  - reflexivity.
  - reflexivity.
Defined.

(** C2 in the wording of the specification does not hold: the empty
    string at a Number key does not make construction throw; it is
    parsed to 0. *)
Lemma number_key_empty_string :
  lookupSource (Sample.start {["PORT" := Some ""]}) "PORT" = Some ""
  /\ createManager [("PORT", DeclNumber None None)] {["PORT" := Some ""]}
       None
     = (Return
          (mkEnvManager {["PORT" := JsNumber (Dec false 0 0)]}
             [("PORT", DeclNumber None None)] false None defaultScopes),
        mkWorld (Some {["PORT" := Some ""]}) [EvGet "NODE_ENV"; EvGet "PORT"])
  /\ fst (createManager [("PORT", DeclNumber None None)]
            {["PORT" := Some ""]} None)
     <> Throw (InvalidNumberError "PORT").
Proof.
  split; [reflexivity |]. split; [reflexivity |].
  vm_compute. discriminate.
Qed.

(** C3. A Boolean key whose raw value is present at the effective lookup
    key: the conversion accepts exactly the strings [true], [false], [1]
    and [0], compared case-sensitively; [true] and [1] give [true],
    [false] and [0] give [false], and that boolean is what the validator
    gets and what is stored under the key.  Any other string makes
    construction throw the invalid-boolean error, whose message names
    the effective lookup key and lists the four literals. *)
Theorem boolean_key S config w0 this pre key validator req post parsedEnv w
    rawValue :
  S = (pre ++ (key, DeclBoolean validator req) :: post)%list ->
  reaches S config w0 this pre parsedEnv w ->
  lookupSource w0 (getPrefixedName this key) = Some rawValue ->
  let rawName := getPrefixedName this key in
  let w' := logged w (EvGet rawName) in
  let literal :=
    rawValue = "true" \/ rawValue = "false"
    \/ rawValue = "1" \/ rawValue = "0" in
  (~ literal ->
   create S config w0 = (Throw (InvalidBooleanError rawName), w'))
  /\ (fst (create S config w0) = Throw (InvalidBooleanError rawName) ->
      ~ literal)
  /\ (forall b : bool,
        (rawValue = "true" \/ rawValue = "1") /\ b = true
        \/ (rawValue = "false" \/ rawValue = "0") /\ b = false ->
        create S config w0
        = bind (validate JsBoolean key rawName validator b)
            (fun _ => finish this post (setProperty parsedEnv key (JsBoolean b)))
            w')
  /\ includes (message (InvalidBooleanError rawName)) rawName
  /\ (forall lit, lit ∈ ["true"; "false"; "1"; "0"] ->
      includes (message (InvalidBooleanError rawName))
        (quote +:+ lit +:+ quote)).
Proof.
  intros HS Hreach Hraw rawName w' literal.
  split; [|split; [|split; [|split]]].
  - intros Hlit.
    rewrite (create_refused _ _ _ _ _ _ _ _ _ _ rawValue HS Hreach Hraw);
      [reflexivity |].
    apply convert_boolean_None, Hlit.
  - intros Hthrow.
    destruct (create_Throw _ _ _ _ Hthrow) as [H|[[names H]|H]];
      try discriminate.
    destruct H as (rawValue' & Hraw' & Hlit). fold rawName in Hraw.
    rewrite Hraw in Hraw'. inversion Hraw'; subst rawValue'. exact Hlit.
  - intros b Hb.
    rewrite (create_converted _ _ _ _ _ _ _ _ _ _ rawValue (JsBoolean b)
               HS Hreach Hraw)
      by (destruct Hb as [[[->| ->] ->]|[[->| ->] ->]]; reflexivity).
    unfold bind.
    destruct validator as [f|]; [rewrite validate_Some | rewrite validate_None];
      simpl; [destruct (f b) as [[|]|s] |]; reflexivity.
  - includes_at "[Env Manager] - Environment variable "
      (" is not a valid boolean. Use "
       +:+ quote +:+ "true" +:+ quote +:+ ", "
       +:+ quote +:+ "false" +:+ quote +:+ ", "
       +:+ quote +:+ "1" +:+ quote +:+ ", or "
       +:+ quote +:+ "0" +:+ quote +:+ ".").
  - intros lit Hlit.
    repeat (apply elem_of_cons in Hlit as [->|Hlit]); [| | | |inversion Hlit].
    + includes_at
        ("[Env Manager] - Environment variable " +:+ rawName
         +:+ " is not a valid boolean. Use ")
        (", " +:+ quote +:+ "false" +:+ quote +:+ ", "
         +:+ quote +:+ "1" +:+ quote +:+ ", or "
         +:+ quote +:+ "0" +:+ quote +:+ ".").
    + includes_at
        ("[Env Manager] - Environment variable " +:+ rawName
         +:+ " is not a valid boolean. Use "
         +:+ quote +:+ "true" +:+ quote +:+ ", ")
        (", " +:+ quote +:+ "1" +:+ quote +:+ ", or "
         +:+ quote +:+ "0" +:+ quote +:+ ".").
    + includes_at
        ("[Env Manager] - Environment variable " +:+ rawName
         +:+ " is not a valid boolean. Use "
         +:+ quote +:+ "true" +:+ quote +:+ ", "
         +:+ quote +:+ "false" +:+ quote +:+ ", ")
        (", or " +:+ quote +:+ "0" +:+ quote +:+ ".").
    + includes_at
        ("[Env Manager] - Environment variable " +:+ rawName
         +:+ " is not a valid boolean. Use "
         +:+ quote +:+ "true" +:+ quote +:+ ", "
         +:+ quote +:+ "false" +:+ quote +:+ ", "
         +:+ quote +:+ "1" +:+ quote +:+ ", or ")
        ".".
Qed.

Lemma boolean_key_witness :
  create Sample.schema None
    (Sample.start (<["DEBUG" := Some "TRUE"]> Sample.hostOnly))
  = (Throw (InvalidBooleanError "DEBUG"),
     mkWorld (Some (<["DEBUG" := Some "TRUE"]> Sample.hostOnly))
       [EvGet "NODE_ENV"; EvGet "HOST"; EvGet "DEBUG"]).
Proof.
  apply (boolean_key Sample.schema None
           (Sample.start (<["DEBUG" := Some "TRUE"]> Sample.hostOnly))
           Sample.plain [("HOST", DeclString None None)] "DEBUG" None
           (Some false) [("PORT", DeclNumber None None)]
           {["HOST" := JsString "localhost"]}
           (mkWorld (Some (<["DEBUG" := Some "TRUE"]> Sample.hostOnly))
              [EvGet "NODE_ENV"; EvGet "HOST"])
           "TRUE").
  - reflexivity.
  - exists (mkWorld (Some (<["DEBUG" := Some "TRUE"]> Sample.hostOnly))
              [EvGet "NODE_ENV"]).
    split; reflexivity.
  - reflexivity.
  - intros [H|[H|[H|H]]]; discriminate H.
Defined.




(** C5. The effective lookup key of a schema key [name]: with scopes
    enabled and a current scope known, it is the scope table's entry for
    the current scope, then an underscore, then [name], an empty entry
    giving an underscore followed by [name]; with scopes disabled or no
    current scope known it is [name].  That key is the one key the loop
    reads from the source for [name], and the value found there alone
    decides the outcome for [name]. *)
Theorem effective_lookup_key this name :
  (forall scope prefix,
     enableScopes this = true ->
     currentScope this = Some scope -> scope <> "" ->
     JsObject.get (scopes this) scope = Some prefix ->
     getPrefixedName this name = prefix +:+ "_" +:+ name)
  /\ (forall scope,
        enableScopes this = true ->
        currentScope this = Some scope -> scope <> "" ->
        JsObject.get (scopes this) scope = Some "" ->
        getPrefixedName this name = "_" +:+ name)
  /\ (enableScopes this = false \/ currentScope this = None ->
      getPrefixedName this name = name)
  /\ (forall declaration parsedEnv w,
        exists calls,
          events (snd (parseEntry this name declaration parsedEnv w))
          = (events w ++ EvGet (getPrefixedName this name) :: calls)%list
          /\ forall other, EvGet other ∉ calls)
  /\ (forall declaration parsedEnv w1 w2,
        lookupSource w1 (getPrefixedName this name)
        = lookupSource w2 (getPrefixedName this name) ->
        fst (parseEntry this name declaration parsedEnv w1)
        = fst (parseEntry this name declaration parsedEnv w2)).
Proof.
  assert (forall scope prefix,
            enableScopes this = true ->
            currentScope this = Some scope -> scope <> "" ->
            JsObject.get (scopes this) scope = Some prefix ->
            getPrefixedName this name = prefix +:+ "_" +:+ name) as Hpre.
  { intros scope prefix He Hc Hne Hp. unfold getPrefixedName.
    rewrite He, Hc. simpl. rewrite (bool_decide_eq_false_2 _ Hne). simpl.
    unfold scopeEntry. rewrite Hp. simpl. unfold orElse.
    rewrite (bool_decide_eq_false_2 _ (prefix_not_empty prefix)).
    apply string_app_assoc. }
  split; [exact Hpre |]. split; [|split; [|split]].
  - intros scope He Hc Hne Hp. apply (Hpre scope "" He Hc Hne Hp).
  - intros [He|Hc]; unfold getPrefixedName.
    + rewrite He. reflexivity.
    + rewrite Hc. simpl. rewrite andb_false_r. reflexivity.
  - intros declaration parsedEnv w. rewrite parseEntry_run. simpl.
    assert (forall other, EvGet other ∉ @nil Event) as Hnil
      by (intros other H; inversion H).
    assert (forall other v, EvGet other ∉ [EvCall name v]) as Hcall
      by (intros other v H; apply list_elem_of_singleton in H; discriminate).
    repeat case_match; simpl; rewrite ?events_logged, <- ?app_assoc; simpl;
      eauto.
  - intros declaration parsedEnv w1 w2 Hsame.
    rewrite !parseEntry_run. simpl. rewrite Hsame.
    repeat case_match; reflexivity.
Qed.

Lemma effective_lookup_key_witness :
  getPrefixedName
    (mkEnvManager ∅ Sample.schema true (Some "production") defaultScopes)
    "HOST" = "PROD_HOST"
  /\ getPrefixedName
       (mkEnvManager ∅ Sample.schema true (Some "bare")
          [("bare", "")]) "HOST" = "_HOST"
  /\ getPrefixedName Sample.plain "HOST" = "HOST".
Proof.
  split; [|split].
  - apply (proj1 (effective_lookup_key
                    (mkEnvManager ∅ Sample.schema true (Some "production")
                       defaultScopes) "HOST") "production" "PROD").
    + reflexivity.
    + reflexivity.
    + discriminate.
    + reflexivity.
  - apply (proj1 (proj2 (effective_lookup_key
                    (mkEnvManager ∅ Sample.schema true (Some "bare")
                       [("bare", "")]) "HOST")) "bare").
    + reflexivity.
    + reflexivity.
    + discriminate.
    + reflexivity.
  - apply (proj1 (proj2 (proj2 (effective_lookup_key Sample.plain "HOST")))).
    left. reflexivity.
Defined.

(** C6. With [enableScopes] true in the configuration and [NODE_ENV]
    absent from the source, construction throws the scope-undetermined
    error; its message lists, separated by bars, the keys of the scope
    table resolved from the configuration, which are the default scope
    names and the user-supplied ones, so that each of these names
    occurs in the message; the only thing done with the source is the
    read of [NODE_ENV], so no schema key is parsed. *)
Theorem scope_undetermined S config R log :
  cfg_enableScopes config = Some true ->
  lookupSource (mkWorld (Some R) log) "NODE_ENV" = None ->
  let names := JsObject.keys (resolvedScopes (Some config)) in
  create S (Some config) (mkWorld (Some R) log)
  = (Throw (ScopeUndeterminedError names),
     mkWorld (Some R) (log ++ [EvGet "NODE_ENV"])%list)
  /\ (forall scope,
        scope ∈ names
        <-> is_Some (JsObject.get defaultScopes scope)
            \/ exists user,
                 cfg_scopes config = Some user
                 /\ is_Some (JsObject.get user scope))
  /\ message (ScopeUndeterminedError names)
     = "[Env Manager] - Scopes enabled but current scope could not be determined from source. Ensure NODE_ENV is set ("
       +:+ join " | " names +:+ ")."
  /\ (forall scope,
        is_Some (JsObject.get defaultScopes scope)
        \/ (exists user,
              cfg_scopes config = Some user
              /\ is_Some (JsObject.get user scope)) ->
        includes (message (ScopeUndeterminedError names)) scope).
Proof.
  intros Hen Habs names.
  assert (forall scope,
            scope ∈ names
            <-> is_Some (JsObject.get defaultScopes scope)
                \/ exists user,
                     cfg_scopes config = Some user
                     /\ is_Some (JsObject.get user scope)) as Hnames.
  { intros scope. unfold names, resolvedScopes.
    rewrite JsObjectFacts.elem_of_keys. simpl.
    destruct (cfg_scopes config) as [user|]; simpl.
    + rewrite JsObjectFacts.get_spread.
      destruct (JsObject.get user scope) as [p|] eqn:Eu.
      * split; [intros _; right; exists user; rewrite Eu; eauto | eauto].
      * split; [auto |].
        intros [H|(user' & Heq & H)]; [exact H |].
        inversion Heq; subst user'. rewrite Eu in H.
        destruct H; discriminate.
    + split; [auto |]. intros [H|(user' & Heq & _)]; [exact H | discriminate]. }
  split; [|split; [exact Hnames |split; [reflexivity |]]].
  - rewrite create_present. simpl.
    rewrite <- (lookupSource_NODE_ENV R log), Habs.
    unfold scopesEnabled. simpl. rewrite Hen. reflexivity.
  - intros scope Hscope. apply Hnames in Hscope.
    destruct (join_includes " | " names scope Hscope)
      as (before & after & Heq).
    exists ("[Env Manager] - Scopes enabled but current scope could not be determined from source. Ensure NODE_ENV is set ("
            +:+ before), (after +:+ ").").
    simpl. rewrite Heq, !string_app_assoc. reflexivity.
Qed.

Lemma scope_undetermined_witness :
  create Sample.schema
    (Some {| cfg_enableScopes := Some true;
             cfg_scopes := Some [("qa", "QA")] |})
    (Sample.start Sample.hostOnly)
  = (Throw (ScopeUndeterminedError
              ["development"; "production"; "test"; "staging"; "qa"]),
     mkWorld (Some Sample.hostOnly) [EvGet "NODE_ENV"]).
Proof.
  apply (scope_undetermined Sample.schema
           {| cfg_enableScopes := Some true;
              cfg_scopes := Some [("qa", "QA")] |}
           Sample.hostOnly []); reflexivity.
Defined.

(** C7. When the configuration supplies [scopes], the scope table of the
    manager is the default table, development to DEV, production to
    PROD, test to TEST and staging to STAGE, overlaid with the user's
    entries: a key the user supplies has the user's prefix, any other
    key has what the default table has for it. *)
Theorem scopes_merge S config user w0 m w' :
  cfg_scopes config = Some user ->
  create S (Some config) w0 = (Return m, w') ->
  defaultScopes
  = [("development", "DEV"); ("production", "PROD"); ("test", "TEST");
     ("staging", "STAGE")]
  /\ forall scope,
       JsObject.get (scopes m) scope
       = match JsObject.get user scope with
         | Some prefix => Some prefix
         | None => JsObject.get defaultScopes scope
         end.
Proof.
  intros Huser Hcreate. split; [reflexivity |]. intros scope.
  destruct (create_Return _ _ _ _ _ Hcreate)
    as (this & w1 & parsedEnv & Hinit & _ & ->).
  pose proof (initialise_Return _ _ _ _ _ Hinit) as (_ & _ & -> & _).
  rewrite <- (JsObjectFacts.get_spread defaultScopes user scope).
  unfold set_env, resolvedScopes. simpl. rewrite Huser. reflexivity.
Qed.

Lemma scopes_merge_witness :
  JsObject.get
    [("development", "DEV"); ("production", "LIVE"); ("test", "TEST");
     ("staging", "STAGE")] "production" = Some "LIVE"
  /\ JsObject.get
       [("development", "DEV"); ("production", "LIVE"); ("test", "TEST");
        ("staging", "STAGE")] "staging" = Some "STAGE".
Proof.
  pose proof
    (scopes_merge []
       {| cfg_enableScopes := None;
          cfg_scopes := Some [("production", "LIVE")] |}
       [("production", "LIVE")] (Sample.start ∅)
       (mkEnvManager ∅ [] false None
          [("development", "DEV"); ("production", "LIVE");
           ("test", "TEST"); ("staging", "STAGE")])
       (mkWorld (Some ∅) [EvGet "NODE_ENV"]) eq_refl eq_refl) as [_ H].
  split; [exact (H "production") | exact (H "staging")].
Defined.

(** C8. A key that carries a validator and whose raw value is present
    and converts to the declared kind: the validator is called with the
    typed value (the call is logged with it); on [true] the value is
    stored and construction goes on, on [false] construction throws the
    validation error naming the effective lookup key with no detail, on
    a string it throws the validation error whose message includes that
    string. *)
Theorem validator_verdict S config w0 this pre key declaration post
    parsedEnv w rawValue v result :
  S = (pre ++ (key, declaration) :: post)%list ->
  reaches S config w0 this pre parsedEnv w ->
  lookupSource w0 (getPrefixedName this key) = Some rawValue ->
  convert declaration rawValue = Some v ->
  answer declaration v = Some result ->
  let rawName := getPrefixedName this key in
  let w' := logged (logged w (EvGet rawName)) (EvCall key v) in
  match result with
  | ResultBoolean true =>
      create S config w0 = finish this post (setProperty parsedEnv key v) w'
  | ResultBoolean false =>
      create S config w0 = (Throw (ValidationError rawName ""), w')
      /\ message (ValidationError rawName "")
         = "[Env Manager] - Environment variable " +:+ rawName
           +:+ " failed custom validation. "
  | ResultString s =>
      create S config w0 = (Throw (ValidationError rawName s), w')
      /\ includes (message (ValidationError rawName s)) rawName
      /\ includes (message (ValidationError rawName s)) s
  end.
Proof.
  intros HS Hreach Hraw Hconv Hans rawName w'.
  rewrite (create_converted _ _ _ _ _ _ _ _ _ _ rawValue v HS Hreach Hraw
             Hconv).
  simpl. rewrite Hans.
  destruct result as [[|]|s].
  - reflexivity.
  - split; [reflexivity |]. simpl. rewrite string_app_nil_r. reflexivity.
  - split; [reflexivity |]. split.
    + includes_at "[Env Manager] - Environment variable "
        (" failed custom validation. " +:+ s).
    + includes_at
        ("[Env Manager] - Environment variable " +:+ rawName
         +:+ " failed custom validation. ") "".
Qed.

Lemma validator_verdict_witness :
  create Sample.checked None (Sample.start {["PORT" := Some "70000"]})
  = (Throw (ValidationError "PORT" "port out of range"),
     mkWorld (Some {["PORT" := Some "70000"]})
       [EvGet "NODE_ENV"; EvGet "PORT";
        EvCall "PORT" (JsNumber (Dec false 70000 0))]).
Proof.
  apply (validator_verdict Sample.checked None
           (Sample.start {["PORT" := Some "70000"]}) Sample.checking []
           "PORT" (DeclNumber (Some Sample.portValidator) None) [] ∅
           (mkWorld (Some {["PORT" := Some "70000"]}) [EvGet "NODE_ENV"])
           "70000" (JsNumber (Dec false 70000 0))
           (ResultString "port out of range")).
  - reflexivity.
  - exists (mkWorld (Some {["PORT" := Some "70000"]}) [EvGet "NODE_ENV"]).
    split; reflexivity.
  - reflexivity.
  - reflexivity.
  - reflexivity.
Defined.

(** C9, as the code has it. With [enableScopes] true and [NODE_ENV] a
    non-empty string that has no entry in the resolved scope table and
    is not the name of a property of [Object.prototype], construction
    does not throw the scope-undetermined error: the manager is set up,
    the effective lookup key of every schema key [name] is [undefined_]
    followed by [name], and construction is the parsing of the whole
    schema against those keys: after [NODE_ENV] the source is read at
    [undefined_] followed by the key, for the first key and on to the
    key that throws, or for all keys when construction returns. *)
Theorem unknown_scope_prefix S config R log scope :
  cfg_enableScopes config = Some true ->
  lookupSource (mkWorld (Some R) log) "NODE_ENV" = Some scope ->
  scope <> "" ->
  JsObject.get (resolvedScopes (Some config)) scope = None ->
  ObjectPrototype.member scope = None ->
  let w0 := mkWorld (Some R) log in
  let w1 := mkWorld (Some R) (log ++ [EvGet "NODE_ENV"])%list in
  exists this,
    initialise S (Some config) w0 = (Return this, w1)
    /\ (forall name, getPrefixedName this name = "undefined_" +:+ name)
    /\ create S (Some config) w0 = finish this S ∅ w1
    /\ (forall names,
          fst (create S (Some config) w0)
          <> Throw (ScopeUndeterminedError names))
    /\ exists n,
         n <= length S
         /\ (S <> [] -> 0 < n)
         /\ (forall m w',
               create S (Some config) w0 = (Return m, w') -> n = length S)
         /\ reads (events (snd (create S (Some config) w0)))
            = (reads log
               ++ "NODE_ENV"
                  :: map (fun entry => "undefined_" +:+ fst entry)
                       (take n S))%list.
Proof.
  intros Hen Hscope Hne Hget Hmember w0 w1. subst w0 w1.
  assert (truthy (lookupSource (mkWorld (Some R) log) "NODE_ENV") = true)
    as Htruthy.
  { rewrite Hscope. simpl.
    rewrite (bool_decide_eq_false_2 _ Hne). reflexivity. }
  destruct (initialise_run S (Some config) R log (or_intror Htruthy))
    as [this Hinit].
  exists this. split; [exact Hinit |].
  pose proof (initialise_Return _ _ _ _ _ Hinit) as (_ & _ & Hthis & _).
  rewrite Htruthy, Hscope in Hthis.
  assert (scopesEnabled (Some config) = true) as Hon
    by (unfold scopesEnabled; simpl; rewrite Hen; reflexivity).
  rewrite Hon in Hthis.
  assert (forall name, getPrefixedName this name = "undefined_" +:+ name)
    as Hname.
  { intros name. rewrite Hthis. unfold getPrefixedName. simpl.
    rewrite (bool_decide_eq_false_2 _ Hne). simpl.
    unfold scopeEntry. rewrite Hget, Hmember. reflexivity. }
  split; [exact Hname |]. split; [apply create_finish, Hinit |]. split.
  - intros names Hthrow.
    rewrite (create_finish _ _ _ _ _ Hinit) in Hthrow.
    apply finish_Throw in Hthrow. exact Hthrow.
  - rewrite (create_finish _ _ _ _ _ Hinit).
    destruct (parseEntries_reads_any this S ∅
                (mkWorld (Some R) (log ++ [EvGet "NODE_ENV"])))
      as (n & Hle & Hpos & Hall & Hreads).
    exists n. split; [exact Hle |]. split; [exact Hpos |]. split.
    + intros m w' Hret. destruct (finish_Return _ _ _ _ _ _ Hret) as [env Hp].
      apply (Hall _ _ Hp).
    + rewrite finish_events, Hreads. simpl.
      rewrite reads_app, <- app_assoc. simpl. do 2 f_equal.
      apply map_ext. intros entry. apply Hname.
Qed.

Lemma unknown_scope_prefix_witness :
  exists this,
    initialise [("HOST", DeclString None None)]
      (Some {| cfg_enableScopes := Some true; cfg_scopes := None |})
      (Sample.start {["NODE_ENV" := Some "qa"]})
    = (Return this,
       mkWorld (Some {["NODE_ENV" := Some "qa"]}) [EvGet "NODE_ENV"])
    /\ getPrefixedName this "HOST" = "undefined_HOST".
Proof.
  destruct (unknown_scope_prefix [("HOST", DeclString None None)]
              {| cfg_enableScopes := Some true; cfg_scopes := None |}
              {["NODE_ENV" := Some "qa"]} [] "qa")
    as (this & Hinit & Hname & _).
  - reflexivity.
  - reflexivity.
  - discriminate.
  - reflexivity.
  - reflexivity.
  - exists this. split; [exact Hinit | exact (Hname "HOST")].
Defined.

(** C9 in its own wording does not hold: [constructor] has no entry in
    the scope table, yet the read [this.scopes[scope]] finds the
    inherited [Object.prototype.constructor], and the effective lookup
    key is the text of that function, an underscore and the name. *)
Lemma unknown_scope_inherited :
  JsObject.get (resolvedScopes (Some Sample.scoped)) "constructor" = None
  /\ lookupSource (Sample.start {["NODE_ENV" := Some "constructor"]})
       "NODE_ENV" = Some "constructor"
  /\ getPrefixedName
       (mkEnvManager ∅ [("HOST", DeclString None None)] true
          (Some "constructor") defaultScopes) "HOST"
     = "function Object() { [native code] }_HOST"
  /\ create [("HOST", DeclString None None)] (Some Sample.scoped)
       (Sample.start {["NODE_ENV" := Some "constructor"]})
     = (Throw (MissingVariableError
                 "function Object() { [native code] }_HOST"),
        mkWorld (Some {["NODE_ENV" := Some "constructor"]})
          [EvGet "NODE_ENV";
           EvGet "function Object() { [native code] }_HOST"]).
Proof. repeat split; reflexivity. Qed.

(** C10. Construction, whether it returns or throws, leaves the object
    behind the caller's [source] as it was, and so does every call of
    [data]: no key of the source is added, removed or rebound. *)
Theorem source_unchanged S config w :
  source (snd (create S config w)) = source w
  /\ (forall m w', source (snd (data m w')) = source w')
  /\ (forall m w',
        create S config w = (Return m, w') ->
        source (snd (data m w')) = source w).
Proof.
  split; [apply create_source |]. split; [reflexivity |].
  intros m w' Hcreate. simpl.
  pose proof (create_source S config w) as H. rewrite Hcreate in H. exact H.
Qed.

Lemma source_unchanged_witness :
  source (snd (data
                 (mkEnvManager {["PORT" := JsNumber (Dec false 0 0)]}
                    [("PORT", DeclNumber None None)] false None
                    defaultScopes)
                 (mkWorld (Some {["PORT" := Some ""]})
                    [EvGet "NODE_ENV"; EvGet "PORT"])))
  = Some {["PORT" := Some ""]}.
Proof.
  apply (proj2 (proj2 (source_unchanged [("PORT", DeclNumber None None)] None
                         (Sample.start {["PORT" := Some ""]})))).
  reflexivity.
Defined.

(** * Further properties of the manager *)

(** X1. Construction throws the undefined-source error exactly when the
    [source] argument is absent, and then nothing has been read or
    called: the world is as it was. *)
Theorem absent_source S config w :
  (source w = None -> create S config w = (Throw InvalidSourceError, w))
  /\ (fst (create S config w) = Throw InvalidSourceError ->
      source w = None).
Proof.
  destruct w as [[R|] log]; simpl.
  - split; [discriminate |]. rewrite create_present. simpl.
    destruct (scopesEnabled config && negb (truthy (mjoin (R !! "NODE_ENV"))));
      simpl; [discriminate |].
    intros H. apply finish_Throw in H. contradiction.
  - split; reflexivity.
Qed.

Lemma absent_source_witness :
  create Sample.schema (Some Sample.scoped) (mkWorld None [])
  = (Throw InvalidSourceError, mkWorld None []).
Proof.
  apply (proj1 (absent_source Sample.schema (Some Sample.scoped)
                  (mkWorld None []))).
  reflexivity.
Defined.

(** X2. With a source given, construction throws the scope-undetermined
    error exactly when the configuration enables scopes and [NODE_ENV]
    is absent from the source or is the empty string. *)
Theorem scope_undetermined_iff S config R log :
  (exists names,
     fst (create S config (mkWorld (Some R) log))
     = Throw (ScopeUndeterminedError names))
  <-> scopesEnabled config = true
      /\ (mjoin (R !! "NODE_ENV") = None
          \/ mjoin (R !! "NODE_ENV") = Some "").
Proof.
  rewrite create_present. simpl. rewrite <- truthy_false.
  destruct (scopesEnabled config); simpl;
    destruct (truthy (mjoin (R !! "NODE_ENV"))); simpl;
    (split; [intros [names H]|intros [H1 H2]]); try discriminate; eauto;
    apply finish_Throw in H; contradiction.
Qed.

Lemma scope_undetermined_iff_witness :
  exists names,
    fst (create Sample.schema (Some Sample.scoped)
           (mkWorld (Some {["NODE_ENV" := Some ""]}) []))
    = Throw (ScopeUndeterminedError names).
Proof.
  apply (proj2 (scope_undetermined_iff Sample.schema (Some Sample.scoped)
                  {["NODE_ENV" := Some ""]} [])).
  split; [reflexivity | right; reflexivity].
Defined.

(** X3. Whatever the configuration, the mapping of a manager that was
    constructed has exactly the keys of the schema other than
    [__proto__]: values are stored under the schema key, never under the
    prefixed key, and the assignment to [__proto__] binds nothing. *)
Theorem parsed_keys S config w m w' :
  create S config w = (Return m, w') ->
  dom (_env m) = list_to_set (map fst S) ∖ {["__proto__"]}.
Proof.
  intros Hcreate.
  destruct (create_Return _ _ _ _ _ Hcreate)
    as (this & w1 & parsedEnv & _ & Hparse & ->).
  destruct (parseEntries_Return_served _ _ _ _ _ _ Hparse) as (_ & -> & _).
  simpl.
  change (storeAt this w1)
    with (assigned (fun entry => expectedAt this w1 (fst entry) (snd entry))).
  rewrite assigned_dom_L, dom_empty_L. apply (left_id_L ∅ (∪)).
Qed.

Lemma parsed_keys_witness :
  dom (_env (mkEnvManager {["STRING_VAR" := JsString "dev-hello"]}
               [("__proto__", DeclString None (Some false));
                ("STRING_VAR", DeclString None (Some true))] true
               (Some "development") defaultScopes))
  = list_to_set
      (map fst [("__proto__", DeclString None (Some false));
                ("STRING_VAR", DeclString None (Some true))])
    ∖ {["__proto__"]}.
Proof.
  apply (parsed_keys [("__proto__", DeclString None (Some false));
                      ("STRING_VAR", DeclString None (Some true))]
           (Some Sample.scoped)
           (Sample.start (<["NODE_ENV" := Some "development"]>
                            {["DEV_STRING_VAR" := Some "dev-hello"]}))
           (mkEnvManager {["STRING_VAR" := JsString "dev-hello"]}
              [("__proto__", DeclString None (Some false));
               ("STRING_VAR", DeclString None (Some true))] true
              (Some "development") defaultScopes)
           (mkWorld (Some (<["NODE_ENV" := Some "development"]>
                             {["DEV_STRING_VAR" := Some "dev-hello"]}))
              [EvGet "NODE_ENV"; EvGet "DEV___proto__";
               EvGet "DEV_STRING_VAR"])).
  reflexivity.
Defined.

(** X4. Once the manager is set up, construction returns exactly when
    every key of the schema is served at its effective lookup key: the
    raw value there converts and passes its validator, or there is none
    and the key is optional. *)
Theorem succeeds_iff_served S config w0 this w1 :
  initialise S config w0 = (Return this, w1) ->
  (exists m w', create S config w0 = (Return m, w'))
  <-> Forall (servedAt this w0) S.
Proof.
  intros Hinit. rewrite (create_finish _ _ _ _ _ Hinit).
  pose proof (initialise_source S config w0) as Hs.
  rewrite Hinit in Hs. simpl in Hs. split.
  - intros (m & w' & H). unfold finish, bind in H.
    destruct (parseEntries this S ∅ w1) as [[env|e] w2] eqn:Hp;
      [|discriminate].
    destruct (parseEntries_Return_served _ _ _ _ _ _ Hp) as (Hall & _).
    eapply Forall_impl; [exact Hall |].
    intros entry. apply (servedAt_frame this w0 w1 entry Hs).
  - intros Hall.
    destruct (parseEntries_served_Return this S ∅ w1) as [w' Hp].
    { eapply Forall_impl; [exact Hall |].
      intros entry. apply (servedAt_frame this w0 w1 entry Hs). }
    unfold finish, bind. rewrite Hp. unfold ret. eauto.
Qed.

Lemma succeeds_iff_served_witness :
  ~ exists m w',
      create Sample.schema None (Sample.start Sample.hostOnly)
      = (Return m, w').
Proof.
  intros H.
  apply (proj1 (succeeds_iff_served Sample.schema None
                  (Sample.start Sample.hostOnly) Sample.plain
                  (mkWorld (Some Sample.hostOnly) [EvGet "NODE_ENV"])
                  eq_refl)) in H.
  apply Forall_cons in H as [_ H]. apply Forall_cons in H as [_ H].
  apply Forall_cons in H as [H _]. vm_compute in H. discriminate H.
Defined.

(** X5. In a manager that was constructed from a schema with distinct
    keys, every schema key other than [__proto__] maps to the typed
    value of what the source reads at its effective lookup key, and to
    [undefined] when that read gives [undefined]; this holds with
    scopes enabled as well.  The key [__proto__] is not bound. *)
Theorem parsed_values S config w0 m w' :
  create S config w0 = (Return m, w') ->
  NoDup (map fst S) ->
  forall key declaration,
    (key, declaration) ∈ S ->
    _env m !! key
    = if bool_decide (key = "__proto__") then None
      else Some match lookupSource w0 (getPrefixedName m key) with
                | None => JsUndefined
                | Some rawValue => typed declaration rawValue
                end.
Proof.
  intros Hcreate Hnd key declaration Hin.
  destruct (create_Return _ _ _ _ _ Hcreate)
    as (this & w1 & parsedEnv & Hinit & Hparse & ->).
  pose proof (initialise_source S config w0) as Hs.
  rewrite Hinit in Hs. simpl in Hs.
  destruct (parseEntries_Return_served _ _ _ _ _ _ Hparse) as (_ & -> & _).
  rewrite getPrefixedName_set_env, <- (lookupSource_frame _ _ _ Hs). simpl.
  change (storeAt this w1)
    with (assigned (fun entry => expectedAt this w1 (fst entry) (snd entry))).
  destruct (bool_decide_reflect (key = "__proto__")) as [->|Hkey].
  - rewrite assigned_proto. apply lookup_empty.
  - rewrite (assigned_lookup _ S ∅ key declaration Hnd Hin Hkey).
    reflexivity.
Qed.

Lemma parsed_values_witness :
  _env (mkEnvManager {["STRING_VAR" := JsString "dev-hello"]}
          [("STRING_VAR", DeclString None (Some true))] true
          (Some "development") defaultScopes) !! "STRING_VAR"
  = Some (JsString "dev-hello").
Proof.
  assert (NoDup (map fst [("STRING_VAR", DeclString None (Some true))]))
    as Hnd by (apply (bool_decide_unpack _); vm_compute; exact I).
  assert (("STRING_VAR", DeclString None (Some true))
          ∈ [("STRING_VAR", DeclString None (Some true))]) as Hin
    by (apply list_elem_of_In; simpl; auto).
  assert (create [("STRING_VAR", DeclString None (Some true))]
            (Some Sample.scoped)
            (Sample.start (<["NODE_ENV" := Some "development"]>
                             {["DEV_STRING_VAR" := Some "dev-hello"]}))
          = (Return
               (mkEnvManager {["STRING_VAR" := JsString "dev-hello"]}
                  [("STRING_VAR", DeclString None (Some true))] true
                  (Some "development") defaultScopes),
             mkWorld (Some (<["NODE_ENV" := Some "development"]>
                              {["DEV_STRING_VAR" := Some "dev-hello"]}))
               [EvGet "NODE_ENV"; EvGet "DEV_STRING_VAR"])) as Hcreate
    by reflexivity.
  exact (parsed_values _ _ _ _ _ Hcreate Hnd _ _ Hin).
Defined.

(** X6. A construction that returns has read the source once for
    [NODE_ENV] and then once for each schema key, at its effective
    lookup key, in the order of the schema, and has read nothing
    else. *)
Theorem reads_in_schema_order S config w0 m w' :
  create S config w0 = (Return m, w') ->
  reads (events w')
  = (reads (events w0)
     ++ "NODE_ENV" :: map (fun entry => getPrefixedName m (fst entry)) S)%list.
Proof.
  intros Hcreate.
  destruct (create_Return _ _ _ _ _ Hcreate)
    as (this & w1 & parsedEnv & Hinit & Hparse & ->).
  destruct (parseEntries_Return_served _ _ _ _ _ _ Hparse) as (_ & _ & ->).
  destruct (initialise_Return _ _ _ _ _ Hinit) as (_ & -> & _).
  simpl. rewrite reads_app, <- app_assoc. reflexivity.
Qed.

Lemma reads_in_schema_order_witness :
  reads [EvGet "NODE_ENV"; EvGet "PORT";
         EvCall "PORT" (JsNumber (Dec false 8080 0))]
  = ["NODE_ENV"; "PORT"].
Proof.
  assert (create Sample.checked None
            (Sample.start {["PORT" := Some "8080"]})
          = (Return
               (mkEnvManager {["PORT" := JsNumber (Dec false 8080 0)]}
                  Sample.checked false None defaultScopes),
             mkWorld (Some {["PORT" := Some "8080"]})
               [EvGet "NODE_ENV"; EvGet "PORT";
                EvCall "PORT" (JsNumber (Dec false 8080 0))])) as Hcreate
    by reflexivity.
  exact (reads_in_schema_order _ _ _ _ _ Hcreate).
Defined.

(** X7. A construction that throws while parsing stops at the first key
    of the schema that is not served: the keys before it were parsed
    without error, the error names its effective lookup key, that key is
    the last thing read from the source, and no later key is read. *)
Theorem first_failing_key S config w0 this w1 e w' :
  initialise S config w0 = (Return this, w1) ->
  create S config w0 = (Throw e, w') ->
  exists pre key declaration post parsedEnv w,
    S = (pre ++ (key, declaration) :: post)%list
    /\ reaches S config w0 this pre parsedEnv w
    /\ Forall (servedAt this w0) pre
    /\ ~ servedAt this w0 (key, declaration)
    /\ named e = Some (getPrefixedName this key)
    /\ reads (events w')
       = (reads (events w0)
          ++ "NODE_ENV"
             :: map (fun entry => getPrefixedName this (fst entry))
                  (pre ++ [(key, declaration)]))%list.
Proof.
  intros Hinit Hcreate.
  rewrite (create_finish _ _ _ _ _ Hinit) in Hcreate.
  unfold finish, bind in Hcreate.
  destruct (parseEntries this S ∅ w1) as [[env|e1] w2] eqn:Hp;
    [discriminate |].
  inversion Hcreate; subst e1 w2.
  destruct (parseEntries_first_failure _ _ _ _ _ _ Hp)
    as (pre & key & declaration & post & env1 & w & HS & Hpre & Hfail).
  pose proof (initialise_source S config w0) as Hs1.
  rewrite Hinit in Hs1. simpl in Hs1.
  pose proof (parseEntries_source this pre ∅ w1) as Hs.
  rewrite Hpre in Hs. simpl in Hs.
  destruct (parseEntries_Return_served _ _ _ _ _ _ Hpre)
    as (Hall & _ & Hreads).
  destruct (parseEntry_Throw_reads _ _ _ _ _ _ _ Hfail) as [Hnamed Hlast].
  destruct (initialise_Return _ _ _ _ _ Hinit) as (_ & Hw1 & _).
  exists pre, key, declaration, post, env1, w.
  split; [exact HS |]. split; [exists w1; auto |].
  split; [|split; [|split; [exact Hnamed |]]].
  - eapply Forall_impl; [exact Hall |].
    intros entry. apply (servedAt_frame this w0 w1 entry Hs1).
  - intros Hserved.
    apply (servedAt_frame this w0 w (key, declaration)) in Hserved;
      [|congruence].
    destruct (proj1 (parseEntry_Return this key declaration env1 w) Hserved)
      as [w'' H].
    rewrite Hfail in H. discriminate.
  - rewrite Hlast, Hreads, Hw1. simpl.
    rewrite reads_app, map_app, <- !app_assoc. reflexivity.
Qed.

Lemma first_failing_key_witness :
  exists pre key declaration post parsedEnv w,
    Sample.schema = (pre ++ (key, declaration) :: post)%list
    /\ reaches Sample.schema None (Sample.start Sample.hostOnly)
         Sample.plain pre parsedEnv w
    /\ Forall (servedAt Sample.plain (Sample.start Sample.hostOnly)) pre
    /\ ~ servedAt Sample.plain (Sample.start Sample.hostOnly)
           (key, declaration)
    /\ named (MissingVariableError "PORT")
       = Some (getPrefixedName Sample.plain key)
    /\ reads [EvGet "NODE_ENV"; EvGet "HOST"; EvGet "DEBUG"; EvGet "PORT"]
       = ([] ++ "NODE_ENV"
             :: map (fun entry => getPrefixedName Sample.plain (fst entry))
                  (pre ++ [(key, declaration)]))%list.
Proof.
  apply (first_failing_key Sample.schema None
           (Sample.start Sample.hostOnly) Sample.plain
           (mkWorld (Some Sample.hostOnly) [EvGet "NODE_ENV"])
           (MissingVariableError "PORT")
           (mkWorld (Some Sample.hostOnly)
              [EvGet "NODE_ENV"; EvGet "HOST"; EvGet "DEBUG"; EvGet "PORT"]));
    reflexivity.
Defined.

(** X8. Every validator call of a construction is for a key of the
    schema that carries a validator, and its argument is the typed value
    of what the source reads at the effective lookup key of that key, an
    own string or the string of an inherited property: a validator is
    never called when the read gives [undefined] or a value that did
    not convert. *)
Theorem validators_get_typed_values S R config k v :
  EvCall k v ∈ events (snd (createManager S R config)) ->
  exists this w1 declaration rawValue,
    initialise S config (mkWorld (Some R) []) = (Return this, w1)
    /\ (k, declaration) ∈ S
    /\ lookupSource (mkWorld (Some R) []) (getPrefixedName this k)
       = Some rawValue
    /\ convert declaration rawValue = Some v
    /\ is_Some (answer declaration v).
Proof.
  unfold createManager.
  pose proof (initialise_present S config R []) as Hinit.
  rewrite create_present. simpl in *.
  destruct (scopesEnabled config && negb (truthy (mjoin (R !! "NODE_ENV")))).
  - simpl. intros H. apply list_elem_of_singleton in H. discriminate.
  - unfold finish, bind.
    match goal with
    | |- context [parseEntries ?t S ∅ ?w] =>
        pose proof (parseEntries_calls t S ∅ w k v) as Hcalls;
        destruct (parseEntries t S ∅ w) as [[env|e] w2]
    end; simpl in *; intros H;
      (destruct (Hcalls H) as [Hin|(d & raw & Hin & Hl & Hc & Ha)];
       [apply list_elem_of_singleton in Hin; discriminate |];
       eauto 10).
Qed.

Lemma validators_get_typed_values_witness :
  exists this w1 declaration rawValue,
    initialise Sample.checked None
      (mkWorld (Some {["PORT" := Some "70000"]}) [])
    = (Return this, w1)
    /\ ("PORT", declaration) ∈ Sample.checked
    /\ lookupSource (mkWorld (Some {["PORT" := Some "70000"]}) [])
         (getPrefixedName this "PORT") = Some rawValue
    /\ convert declaration rawValue = Some (JsNumber (Dec false 70000 0))
    /\ is_Some (answer declaration (JsNumber (Dec false 70000 0))).
Proof.
  apply (validators_get_typed_values Sample.checked
           {["PORT" := Some "70000"]} None "PORT"
           (JsNumber (Dec false 70000 0))).
  apply list_elem_of_In. vm_compute. auto.
Defined.

(** X9. Variables of the source that are neither [NODE_ENV] nor the
    effective lookup key of a schema key have no influence: two sources
    that read the same under those give the same parsed mapping or the
    same error. *)
Theorem irrelevant_variables S config R1 R2 :
  mjoin (R1 !! "NODE_ENV") = mjoin (R2 !! "NODE_ENV") ->
  (forall this w key declaration,
     initialise S config (mkWorld (Some R1) []) = (Return this, w) ->
     (key, declaration) ∈ S ->
     lookupSource (mkWorld (Some R1) []) (getPrefixedName this key)
     = lookupSource (mkWorld (Some R2) []) (getPrefixedName this key)) ->
  parsed (createManager S R1 config) = parsed (createManager S R2 config).
Proof.
  intros Hscope Hsame. unfold createManager.
  pose proof (initialise_present S config R1 []) as Hinit.
  rewrite !parsed_create_present. simpl in *. rewrite <- Hscope.
  destruct (scopesEnabled config && negb (truthy (mjoin (R1 !! "NODE_ENV"))));
    [reflexivity |].
  rewrite <- (renamed_id (fst (parseEntries _ S ∅ (mkWorld (Some R2) _)))).
  apply parseEntries_renamed. intros key declaration Hin.
  split; [reflexivity |].
  apply (Hsame _ _ key declaration Hinit Hin).
Qed.

Lemma irrelevant_variables_witness :
  parsed (createManager Sample.schema
            (<["PORT" := Some "8080"]> Sample.hostOnly) None)
  = parsed (createManager Sample.schema
              (<["HOME" := Some "/root"]>
                 (<["PORT" := Some "8080"]> Sample.hostOnly)) None).
Proof.
  apply (irrelevant_variables Sample.schema None
           (<["PORT" := Some "8080"]> Sample.hostOnly)
           (<["HOME" := Some "/root"]>
              (<["PORT" := Some "8080"]> Sample.hostOnly))).
  - reflexivity.
  - intros this w key declaration Hinit Hin.
    inversion Hinit; subst this w.
    apply list_elem_of_In in Hin. simpl in Hin.
    destruct Hin as [H|[H|[H|[]]]]; inversion H; subst; reflexivity.
Defined.

(** X10. Scoping is a renaming of the variables: with scopes enabled
    and [NODE_ENV] a non-empty string, the prefix being the string of
    what [this.scopes] reads for that scope followed by an underscore,
    construction over a source gives the mapping that construction
    without scopes gives over a source that reads under every schema key
    what the scoped source reads under the prefixed key; an error is
    the same error with the prefixed name in place of the bare one. *)
Theorem scoping_is_renaming S config R R' scope :
  cfg_enableScopes config = Some true ->
  mjoin (R !! "NODE_ENV") = Some scope ->
  scope <> "" ->
  let prefix :=
    ToString (scopeEntry (resolvedScopes (Some config)) scope) +:+ "_" in
  (forall key declaration,
     (key, declaration) ∈ S ->
     lookupSource (mkWorld (Some R') []) key
     = lookupSource (mkWorld (Some R) []) (prefix +:+ key)) ->
  parsed (createManager S R (Some config))
  = mapThrow (renamed (fun name => prefix +:+ name))
      (parsed (createManager S R' None)).
Proof.
  intros Hen Hscope Hne prefix Hsame. unfold createManager.
  rewrite !parsed_create_present. simpl. rewrite Hscope.
  assert (scopesEnabled (Some config) = true) as ->
    by (unfold scopesEnabled; simpl; rewrite Hen; reflexivity).
  simpl. rewrite (bool_decide_eq_false_2 _ Hne). simpl.
  apply parseEntries_renamed. intros key declaration Hin.
  assert (getPrefixedName
            (mkEnvManager ∅ S true (Some scope)
               (resolvedScopes (Some config))) key
          = prefix +:+ key) as Hname.
  { unfold getPrefixedName. simpl.
    rewrite (bool_decide_eq_false_2 _ Hne). simpl. unfold orElse.
    rewrite (bool_decide_eq_false_2 _ (prefix_not_empty _)). reflexivity. }
  rewrite Hname. split; [reflexivity |].
  symmetry. exact (Hsame key declaration Hin).
Qed.

Lemma scoping_is_renaming_witness :
  parsed (createManager [("STRING_VAR", DeclString None (Some true))]
            (<["NODE_ENV" := Some "development"]>
               {["DEV_STRING_VAR" := Some "dev-hello"]})
            (Some Sample.scoped))
  = mapThrow (renamed (fun name => "DEV_" +:+ name))
      (parsed (createManager [("STRING_VAR", DeclString None (Some true))]
                 {["STRING_VAR" := Some "dev-hello"]} None)).
Proof.
  apply (scoping_is_renaming [("STRING_VAR", DeclString None (Some true))]
           Sample.scoped
           (<["NODE_ENV" := Some "development"]>
              {["DEV_STRING_VAR" := Some "dev-hello"]})
           {["STRING_VAR" := Some "dev-hello"]} "development").
  - reflexivity.
  - reflexivity.
  - discriminate.
  - intros key declaration Hin.
    apply list_elem_of_In in Hin. simpl in Hin.
    destruct Hin as [H|[]]; inversion H; subst; reflexivity.
Defined.

(** X11. A configuration that does not enable scopes has no effect on
    what is parsed: whatever [scopes] it supplies and whatever
    [NODE_ENV] is, construction gives the mapping or the error it gives
    without a configuration. *)
Theorem disabled_scopes_change_nothing S config w :
  scopesEnabled config = false ->
  parsed (create S config w) = parsed (create S None w).
Proof.
  intros Hoff. destruct w as [[R|] log]; [|reflexivity].
  rewrite !parsed_create_present. simpl. rewrite Hoff. simpl.
  rewrite <- (renamed_id (fst (parseEntries
                                 (mkEnvManager ∅ S false _ defaultScopes) _ _ _))).
  apply parseEntries_renamed. intros key declaration Hin.
  split; reflexivity.
Qed.

Lemma disabled_scopes_change_nothing_witness :
  parsed (create Sample.schema
            (Some {| cfg_enableScopes := Some false;
                     cfg_scopes := Some [("production", "LIVE")] |})
            (Sample.start (<["NODE_ENV" := Some "production"]>
                             Sample.hostOnly)))
  = parsed (create Sample.schema None
              (Sample.start (<["NODE_ENV" := Some "production"]>
                               Sample.hostOnly))).
Proof.
  apply (disabled_scopes_change_nothing Sample.schema
           (Some {| cfg_enableScopes := Some false;
                    cfg_scopes := Some [("production", "LIVE")] |})
           (Sample.start (<["NODE_ENV" := Some "production"]>
                            Sample.hostOnly))).
  reflexivity.
Defined.

(** X12. Distinct schema keys have distinct effective lookup keys,
    whatever the scope and its prefix: no two keys of a schema are read
    from the same variable. *)
Theorem effective_keys_distinct this a b :
  a <> b -> getPrefixedName this a <> getPrefixedName this b.
Proof.
  intros Hne Heq. apply Hne. revert Heq. unfold getPrefixedName.
  destruct (enableScopes this && truthy (currentScope this));
    [|auto].
  destruct (currentScope this) as [scope|]; [|auto].
  simpl. apply (inj (String.app _)).
Qed.

Lemma effective_keys_distinct_witness :
  getPrefixedName
    (mkEnvManager ∅ Sample.schema true (Some "production") defaultScopes)
    "HOST"
  <> getPrefixedName
       (mkEnvManager ∅ Sample.schema true (Some "production") defaultScopes)
       "PORT".
Proof.
  apply (effective_keys_distinct
           (mkEnvManager ∅ Sample.schema true (Some "production")
              defaultScopes) "HOST" "PORT").
  discriminate.
Defined.

(** X13. The scope names listed by the scope-undetermined error are
    the keys of the merged scope table, each once, whatever the user's
    table is; the four default names are always among them. *)
Theorem scope_names_listed_once S config w names :
  fst (create S config w) = Throw (ScopeUndeterminedError names) ->
  names = JsObject.keys (resolvedScopes config)
  /\ NoDup names
  /\ Forall (fun scope => scope ∈ names)
       ["development"; "production"; "test"; "staging"].
Proof.
  destruct w as [[R|] log]; [|discriminate].
  rewrite create_present. simpl.
  destruct (scopesEnabled config && negb (truthy (mjoin (R !! "NODE_ENV"))));
    simpl.
  - intros H; inversion H; subst names. split; [reflexivity |].
    unfold resolvedScopes. split.
    + apply keys_NoDup.
      destruct (config ≫= cfg_scopes) as [user|].
      * apply assign_NoDup, assign_NoDup. constructor.
      * apply (bool_decide_unpack _). vm_compute. exact I.
    + assert (forall scope,
                is_Some (JsObject.get defaultScopes scope) ->
                scope ∈ JsObject.keys
                          match config ≫= cfg_scopes with
                          | Some user => JsObject.spread defaultScopes user
                          | None => defaultScopes
                          end) as Hdef.
      { intros scope Hsome. apply JsObjectFacts.elem_of_keys.
        destruct (config ≫= cfg_scopes) as [user|]; [|exact Hsome].
        rewrite JsObjectFacts.get_spread.
        destruct (JsObject.get user scope); eauto. }
      repeat constructor; apply Hdef; vm_compute; eauto.
  - intros H. apply finish_Throw in H. contradiction.
Qed.

Lemma scope_names_listed_once_witness :
  ["7"; "development"; "production"; "test"; "staging"; "qa"]
  = JsObject.keys
      (resolvedScopes
         (Some {| cfg_enableScopes := Some true;
                  cfg_scopes :=
                    Some [("qa", "QA"); ("test", "T"); ("7", "SEVEN")] |}))
  /\ NoDup ["7"; "development"; "production"; "test"; "staging"; "qa"]
  /\ Forall
       (fun scope =>
          scope ∈ ["7"; "development"; "production"; "test"; "staging"; "qa"])
       ["development"; "production"; "test"; "staging"].
Proof.
  apply (scope_names_listed_once Sample.schema
           (Some {| cfg_enableScopes := Some true;
                    cfg_scopes :=
                      Some [("qa", "QA"); ("test", "T"); ("7", "SEVEN")] |})
           (Sample.start Sample.hostOnly)).
  reflexivity.
Defined.

(** X14. The order of the keys in the schema does not matter for a
    construction that returns: over a schema with distinct keys, any
    reordering of the schema also returns, with the same parsed
    mapping. *)
Theorem schema_order_irrelevant S S' config w m w1 :
  NoDup (map fst S) ->
  S ≡ₚ S' ->
  create S config w = (Return m, w1) ->
  exists m' w1',
    create S' config w = (Return m', w1') /\ _env m' = _env m.
Proof.
  intros Hnd Hperm. destruct w as [[R|] log]; [|discriminate].
  rewrite !create_present. simpl.
  destruct (scopesEnabled config && negb (truthy (mjoin (R !! "NODE_ENV"))));
    [discriminate |].
  set (v := if truthy (mjoin (R !! "NODE_ENV"))
            then mjoin (R !! "NODE_ENV") else None).
  set (w0 := mkWorld (Some R) (log ++ [EvGet "NODE_ENV"])).
  set (this := mkEnvManager ∅ S (scopesEnabled config) v
                 (resolvedScopes config)).
  set (this' := mkEnvManager ∅ S' (scopesEnabled config) v
                  (resolvedScopes config)).
  unfold finish, bind.
  destruct (parseEntries this S ∅ w0) as [[env|e] w2] eqn:Hp; [|discriminate].
  unfold ret, freeze. intros H; inversion H; subst m w1; clear H.
  destruct (parseEntries_Return_served _ _ _ _ _ _ Hp) as (Hall & -> & _).
  assert (Forall (servedAt this' w0) S') as Hall'.
  { eapply Permutation_Forall; [exact Hperm |].
    eapply Forall_impl; [exact Hall |]. intros entry Hs. exact Hs. }
  destruct (parseEntries_served_Return this' S' ∅ w0 Hall') as [w' Hp'].
  rewrite Hp'. eexists _, _. split; [reflexivity |]. simpl.
  change (storeAt this' w0)
    with (assigned (fun entry => expectedAt this w0 (fst entry) (snd entry))).
  change (storeAt this w0)
    with (assigned (fun entry => expectedAt this w0 (fst entry) (snd entry))).
  assert (NoDup (map fst S')) as Hnd'.
  { rewrite <- (Permutation_map fst Hperm). exact Hnd. }
  apply map_eq. intros key.
  destruct (decide (key = "__proto__")) as [->|Hkey];
    [rewrite !assigned_proto; reflexivity |].
  destruct (decide (key ∈ map fst S)) as [Hin|Hnin].
  - apply list_elem_of_In, in_map_iff in Hin as [[key' declaration] [Hk Hin]].
    simpl in Hk. subst key'. apply list_elem_of_In in Hin.
    rewrite (assigned_lookup _ S ∅ key declaration Hnd Hin Hkey).
    apply (assigned_lookup
             (fun entry => expectedAt this w0 (fst entry) (snd entry))
             S' ∅ key declaration Hnd'); [|exact Hkey].
    rewrite <- Hperm. exact Hin.
  - rewrite (assigned_other _ S ∅ key Hnin).
    apply assigned_other. intros Hin. apply Hnin.
    apply list_elem_of_In. apply list_elem_of_In in Hin.
    eapply Permutation_in; [|exact Hin].
    apply Permutation_map. symmetry. exact Hperm.
Qed.

Lemma schema_order_irrelevant_witness :
  exists m' w1',
    create [("B", DeclBoolean None None); ("A", DeclString None None)] None
      (Sample.start (<["B" := Some "0"]> {["A" := Some "x"]}))
    = (Return m', w1')
    /\ _env m'
       = _env (mkEnvManager
                 (<["B" := JsBoolean false]> {["A" := JsString "x"]})
                 [("A", DeclString None None); ("B", DeclBoolean None None)]
                 false None defaultScopes).
Proof.
  apply (schema_order_irrelevant
           [("A", DeclString None None); ("B", DeclBoolean None None)]
           [("B", DeclBoolean None None); ("A", DeclString None None)]
           None (Sample.start (<["B" := Some "0"]> {["A" := Some "x"]}))
           (mkEnvManager
              (<["B" := JsBoolean false]> {["A" := JsString "x"]})
              [("A", DeclString None None); ("B", DeclBoolean None None)]
              false None defaultScopes)
           (mkWorld (Some (<["B" := Some "0"]> {["A" := Some "x"]}))
              [EvGet "NODE_ENV"; EvGet "A"; EvGet "B"])).
  - apply (bool_decide_unpack _). vm_compute. exact I.
  - apply perm_swap.
  - reflexivity.
Defined.

(** X15. The mapping of a constructed manager is typed as [ParsedEnv]
    declares: over a schema with distinct keys, every schema key other
    than [__proto__] is bound; it is bound to [undefined] only when it
    is declared optional, and otherwise to a string for a String key,
    to a number that is not NaN for a Number key, to a boolean for a
    Boolean key. *)
Theorem parsed_env_typed S config w0 m w' key declaration :
  create S config w0 = (Return m, w') ->
  NoDup (map fst S) ->
  (key, declaration) ∈ S ->
  match _env m !! key with
  | Some JsUndefined => required declaration = Some false
  | Some (JsString _) => exists v r, declaration = DeclString v r
  | Some (JsNumber n) =>
      (exists v r, declaration = DeclNumber v r) /\ isNaN n = false
  | Some (JsBoolean _) => exists v r, declaration = DeclBoolean v r
  | None => key = "__proto__"
  end.
Proof.
  intros Hcreate Hnd Hin.
  destruct (create_Return _ _ _ _ _ Hcreate)
    as (this & w1 & parsedEnv & Hinit & Hparse & ->).
  destruct (parseEntries_Return_served _ _ _ _ _ _ Hparse) as (Hall & -> & _).
  rewrite Forall_forall in Hall. specialize (Hall _ Hin).
  simpl.
  change (storeAt this w1)
    with (assigned (fun entry => expectedAt this w1 (fst entry) (snd entry))).
  destruct (decide (key = "__proto__")) as [->|Hkey];
    [rewrite assigned_proto, lookup_empty; reflexivity |].
  rewrite (assigned_lookup _ S ∅ key declaration Hnd Hin Hkey).
  unfold servedAt in Hall. unfold expectedAt. simpl in *.
  destruct (lookupSource w1 (getPrefixedName this key)) as [rawValue|];
    [|exact Hall].
  unfold accepts in Hall.
  destruct declaration as [v r|v r|v r]; simpl in *; eauto.
  split; [eauto |].
  destruct (isNaN (Number rawValue)); [discriminate | reflexivity].
Qed.

Lemma parsed_env_typed_witness :
  (exists v r, DeclNumber (Some Sample.portValidator) None = DeclNumber v r)
  /\ isNaN (Dec false 8080 0) = false.
Proof.
  assert (create Sample.checked None
            (Sample.start {["PORT" := Some "8080"]})
          = (Return
               (mkEnvManager {["PORT" := JsNumber (Dec false 8080 0)]}
                  Sample.checked false None defaultScopes),
             mkWorld (Some {["PORT" := Some "8080"]})
               [EvGet "NODE_ENV"; EvGet "PORT";
                EvCall "PORT" (JsNumber (Dec false 8080 0))])) as Hcreate
    by reflexivity.
  assert (NoDup (map fst Sample.checked)) as Hnd
    by (apply (bool_decide_unpack _); vm_compute; exact I).
  assert (("PORT", DeclNumber (Some Sample.portValidator) None)
          ∈ Sample.checked) as Hin
    by (apply list_elem_of_In; simpl; auto).
  exact (parsed_env_typed _ _ _ _ _ _ _ Hcreate Hnd Hin).
Defined.
